(** * Versioned-resource persistence of oclapi: a shallow embedding

    The development follows [oclapi/models.py] (abstract resource, version
    and concept-container models) and [sources/models.py] (Source and
    SourceVersion).  Storage ids and mnemonics are strings, error reports
    are dictionaries keyed by field name, and the Django object manager is a
    list of stored records in creation order. *)

From stdpp Require Import base strings gmap list.

(** ** Identity *)

(** A storage id is the text form of the record's primary key. *)
Definition ident := string.

(** The error report of a persistence operation: a Python dict from field
    name to either one message ([persist_new]) or a list of messages
    ([persist_changes], [ValidationError.message_dict]). *)
Inductive err_value :=
  | Msg (s : string)
  | Msgs (l : list string).

Abbreviation error_dict := (gmap string err_value).

(** What a call hands back to its caller: the returned error dictionary, or
    an exception that left the function. *)
Inductive outcome :=
  | Returned (e : error_dict)
  | Raised.

(** ** Records *)

(** The generic foreign key [parent_type]/[parent_id] of a sub-resource. *)
Inductive parent_kind := Organization | UserProfile.

Record parent_ref := { parent_type : parent_kind; parent_id : ident }.

(** [Source]: the fields of [BaseModel], [SubResourceBaseModel],
    [ConceptContainerModel] and [Source] that the operations read.  The two
    time stamps of [BaseModel] are left out: no operation here reads the
    time stamps of a source, and [updated_at] is rewritten by every
    [save()].  What is stated of a source is stated of the fields below. *)
Record Source := {
  src_id : option ident;
  src_mnemonic : string;
  src_owner : option ident;
  src_parent : option parent_ref;
  src_name : string;
  src_full_name : option string;
  src_source_type : string;
  src_public_access : string;
  src_default_locale : string;
  src_supported_locales : option (list string);
  src_website : option string;
  src_description : option string;
  src_is_active : bool
}.

(** [SourceVersion]: the fields of [BaseModel], [ResourceVersionModel],
    [ConceptContainerVersionModel] and [SourceVersion].  The foreign keys
    [previous_version] and [parent_version] hold the id of the record they
    point to.  The three underscore fields are the transient attributes that
    [persist_changes] probes with [hasattr]: [None] is an attribute that is
    not there (or is [None]). *)
Record SourceVersion := {
  id : option ident;
  mnemonic : string;
  versioned_object_id : option ident;
  released : bool;
  previous_version : option ident;
  parent_version : option ident;
  name : string;
  full_name : option string;
  source_type : string;
  public_access : string;
  default_locale : string;
  supported_locales : option (list string);
  website : option string;
  description : option string;
  concepts : list ident;
  is_active : bool;
  created_at : nat;
  _previous_version_mnemonic : option string;
  _parent_version_mnemonic : option string;
  _was_released : option bool
}.

(** A stored concept version, as far as the container code reads it:
    its id and the id of its [previous_version]. *)
Record ConceptVersion := {
  cv_id : ident;
  cv_versioned_object_id : ident;
  cv_released : bool;
  cv_previous_version : option ident;
  cv_retired : bool;
  cv_is_active : bool;
  cv_created_at : nat
}.

Global Instance parent_kind_eq_dec : EqDecision parent_kind.
Proof. solve_decision. Defined.
Global Instance parent_ref_eq_dec : EqDecision parent_ref.
Proof. solve_decision. Defined.
Global Instance Source_eq_dec : EqDecision Source.
Proof. solve_decision. Defined.
Global Instance SourceVersion_eq_dec : EqDecision SourceVersion.
Proof. solve_decision. Defined.
Global Instance ConceptVersion_eq_dec : EqDecision ConceptVersion.
Proof. solve_decision. Defined.

(** Field assignments on a [SourceVersion]. *)
Definition set_id (i : option ident) (v : SourceVersion) : SourceVersion :=
  {| id := i; mnemonic := mnemonic v;
     versioned_object_id := versioned_object_id v; released := released v;
     previous_version := previous_version v;
     parent_version := parent_version v; name := name v;
     full_name := full_name v; source_type := source_type v;
     public_access := public_access v; default_locale := default_locale v;
     supported_locales := supported_locales v; website := website v;
     description := description v; concepts := concepts v;
     is_active := is_active v; created_at := created_at v;
     _previous_version_mnemonic := _previous_version_mnemonic v;
     _parent_version_mnemonic := _parent_version_mnemonic v;
     _was_released := _was_released v |}.

Definition set_mnemonic (m : string) (v : SourceVersion) : SourceVersion :=
  {| id := id v; mnemonic := m;
     versioned_object_id := versioned_object_id v; released := released v;
     previous_version := previous_version v;
     parent_version := parent_version v; name := name v;
     full_name := full_name v; source_type := source_type v;
     public_access := public_access v; default_locale := default_locale v;
     supported_locales := supported_locales v; website := website v;
     description := description v; concepts := concepts v;
     is_active := is_active v; created_at := created_at v;
     _previous_version_mnemonic := _previous_version_mnemonic v;
     _parent_version_mnemonic := _parent_version_mnemonic v;
     _was_released := _was_released v |}.

Definition set_versioned_object_id (o : option ident) (v : SourceVersion)
  : SourceVersion :=
  {| id := id v; mnemonic := mnemonic v;
     versioned_object_id := o; released := released v;
     previous_version := previous_version v;
     parent_version := parent_version v; name := name v;
     full_name := full_name v; source_type := source_type v;
     public_access := public_access v; default_locale := default_locale v;
     supported_locales := supported_locales v; website := website v;
     description := description v; concepts := concepts v;
     is_active := is_active v; created_at := created_at v;
     _previous_version_mnemonic := _previous_version_mnemonic v;
     _parent_version_mnemonic := _parent_version_mnemonic v;
     _was_released := _was_released v |}.

Definition set_released (b : bool) (v : SourceVersion) : SourceVersion :=
  {| id := id v; mnemonic := mnemonic v;
     versioned_object_id := versioned_object_id v; released := b;
     previous_version := previous_version v;
     parent_version := parent_version v; name := name v;
     full_name := full_name v; source_type := source_type v;
     public_access := public_access v; default_locale := default_locale v;
     supported_locales := supported_locales v; website := website v;
     description := description v; concepts := concepts v;
     is_active := is_active v; created_at := created_at v;
     _previous_version_mnemonic := _previous_version_mnemonic v;
     _parent_version_mnemonic := _parent_version_mnemonic v;
     _was_released := _was_released v |}.

Definition set_previous_version (p : option ident) (v : SourceVersion)
  : SourceVersion :=
  {| id := id v; mnemonic := mnemonic v;
     versioned_object_id := versioned_object_id v; released := released v;
     previous_version := p;
     parent_version := parent_version v; name := name v;
     full_name := full_name v; source_type := source_type v;
     public_access := public_access v; default_locale := default_locale v;
     supported_locales := supported_locales v; website := website v;
     description := description v; concepts := concepts v;
     is_active := is_active v; created_at := created_at v;
     _previous_version_mnemonic := _previous_version_mnemonic v;
     _parent_version_mnemonic := _parent_version_mnemonic v;
     _was_released := _was_released v |}.

Definition set_parent_version (p : option ident) (v : SourceVersion)
  : SourceVersion :=
  {| id := id v; mnemonic := mnemonic v;
     versioned_object_id := versioned_object_id v; released := released v;
     previous_version := previous_version v;
     parent_version := p; name := name v;
     full_name := full_name v; source_type := source_type v;
     public_access := public_access v; default_locale := default_locale v;
     supported_locales := supported_locales v; website := website v;
     description := description v; concepts := concepts v;
     is_active := is_active v; created_at := created_at v;
     _previous_version_mnemonic := _previous_version_mnemonic v;
     _parent_version_mnemonic := _parent_version_mnemonic v;
     _was_released := _was_released v |}.

Definition set_concepts (c : list ident) (v : SourceVersion) : SourceVersion :=
  {| id := id v; mnemonic := mnemonic v;
     versioned_object_id := versioned_object_id v; released := released v;
     previous_version := previous_version v;
     parent_version := parent_version v; name := name v;
     full_name := full_name v; source_type := source_type v;
     public_access := public_access v; default_locale := default_locale v;
     supported_locales := supported_locales v; website := website v;
     description := description v; concepts := c;
     is_active := is_active v; created_at := created_at v;
     _previous_version_mnemonic := _previous_version_mnemonic v;
     _parent_version_mnemonic := _parent_version_mnemonic v;
     _was_released := _was_released v |}.

Definition set_created_at (t : nat) (v : SourceVersion) : SourceVersion :=
  {| id := id v; mnemonic := mnemonic v;
     versioned_object_id := versioned_object_id v; released := released v;
     previous_version := previous_version v;
     parent_version := parent_version v; name := name v;
     full_name := full_name v; source_type := source_type v;
     public_access := public_access v; default_locale := default_locale v;
     supported_locales := supported_locales v; website := website v;
     description := description v; concepts := concepts v;
     is_active := is_active v; created_at := t;
     _previous_version_mnemonic := _previous_version_mnemonic v;
     _parent_version_mnemonic := _parent_version_mnemonic v;
     _was_released := _was_released v |}.

Definition del_was_released (v : SourceVersion) : SourceVersion :=
  {| id := id v; mnemonic := mnemonic v;
     versioned_object_id := versioned_object_id v; released := released v;
     previous_version := previous_version v;
     parent_version := parent_version v; name := name v;
     full_name := full_name v; source_type := source_type v;
     public_access := public_access v; default_locale := default_locale v;
     supported_locales := supported_locales v; website := website v;
     description := description v; concepts := concepts v;
     is_active := is_active v; created_at := created_at v;
     _previous_version_mnemonic := _previous_version_mnemonic v;
     _parent_version_mnemonic := _parent_version_mnemonic v;
     _was_released := None |}.

Definition del_previous_version_mnemonic (v : SourceVersion) : SourceVersion :=
  {| id := id v; mnemonic := mnemonic v;
     versioned_object_id := versioned_object_id v; released := released v;
     previous_version := previous_version v;
     parent_version := parent_version v; name := name v;
     full_name := full_name v; source_type := source_type v;
     public_access := public_access v; default_locale := default_locale v;
     supported_locales := supported_locales v; website := website v;
     description := description v; concepts := concepts v;
     is_active := is_active v; created_at := created_at v;
     _previous_version_mnemonic := None;
     _parent_version_mnemonic := _parent_version_mnemonic v;
     _was_released := _was_released v |}.

Definition del_parent_version_mnemonic (v : SourceVersion) : SourceVersion :=
  {| id := id v; mnemonic := mnemonic v;
     versioned_object_id := versioned_object_id v; released := released v;
     previous_version := previous_version v;
     parent_version := parent_version v; name := name v;
     full_name := full_name v; source_type := source_type v;
     public_access := public_access v; default_locale := default_locale v;
     supported_locales := supported_locales v; website := website v;
     description := description v; concepts := concepts v;
     is_active := is_active v; created_at := created_at v;
     _previous_version_mnemonic := _previous_version_mnemonic v;
     _parent_version_mnemonic := None;
     _was_released := _was_released v |}.

(** Field assignments on a [Source]. *)
Definition set_src_id (i : option ident) (s : Source) : Source :=
  {| src_id := i; src_mnemonic := src_mnemonic s; src_owner := src_owner s;
     src_parent := src_parent s; src_name := src_name s;
     src_full_name := src_full_name s; src_source_type := src_source_type s;
     src_public_access := src_public_access s;
     src_default_locale := src_default_locale s;
     src_supported_locales := src_supported_locales s;
     src_website := src_website s; src_description := src_description s;
     src_is_active := src_is_active s |}.

Definition set_src_owner (o : option ident) (s : Source) : Source :=
  {| src_id := src_id s; src_mnemonic := src_mnemonic s; src_owner := o;
     src_parent := src_parent s; src_name := src_name s;
     src_full_name := src_full_name s; src_source_type := src_source_type s;
     src_public_access := src_public_access s;
     src_default_locale := src_default_locale s;
     src_supported_locales := src_supported_locales s;
     src_website := src_website s; src_description := src_description s;
     src_is_active := src_is_active s |}.

Definition set_src_parent (p : option parent_ref) (s : Source) : Source :=
  {| src_id := src_id s; src_mnemonic := src_mnemonic s;
     src_owner := src_owner s;
     src_parent := p; src_name := src_name s;
     src_full_name := src_full_name s; src_source_type := src_source_type s;
     src_public_access := src_public_access s;
     src_default_locale := src_default_locale s;
     src_supported_locales := src_supported_locales s;
     src_website := src_website s; src_description := src_description s;
     src_is_active := src_is_active s |}.

(** ** The storage collaborator *)

(** Modelled from the spec: the Django object managers and [Model.save] /
    [Model.delete] are not part of the sources.  Section 6 describes the
    collaborator as create, update, delete-by-id and filter-by-predicate,
    where an operation completes or reports failure.  A collection is the
    list of its records in insertion order; [clock] is the time stamped on
    the next insert ([auto_now_add]); [faults] is the schedule of write
    failures: each write takes the head, and [true] makes it raise without
    touching the collections. *)
Record world := {
  db_sources : list Source;
  db_versions : list SourceVersion;
  clock : nat;
  faults : list bool
}.

(** The result of a storage call or of a helper that can raise. *)
Inductive result (A : Type) :=
  | Ok (a : A)
  | Exn.
Arguments Ok {A} a.
Arguments Exn {A}.

Definition next_fault (w : world) : bool * world :=
  match faults w with
  | [] => (false, w)
  | b :: fs =>
      (b, {| db_sources := db_sources w; db_versions := db_versions w;
             clock := clock w; faults := fs |})
  end.

Fixpoint zeros (n : nat) : string :=
  match n with
  | 0 => ""
  | S n' => String (Ascii.ascii_of_nat 48) (zeros n')
  end.

(** A new primary key: non-empty and different from every key in use
    (it is longer than each of them). *)
Definition fresh_id (used : list ident) : ident :=
  zeros (S (max_list (String.length <$> used))).

(** The keys in use in a collection. *)
Definition source_ids (l : list Source) : list ident :=
  omap src_id l.

Definition version_ids (l : list SourceVersion) : list ident :=
  omap id l.

(** What is written of a version: the transient attributes stay on the
    in-memory object. *)
Definition stored (v : SourceVersion) : SourceVersion :=
  del_previous_version_mnemonic
    (del_parent_version_mnemonic (del_was_released v)).

(** [obj.save()] on a [Source]: insert under a new key when the object has
    none (or its key is unknown), else overwrite the record with that key.
    Gives back the object as it is after the call. *)
Definition save_source (obj : Source) (w : world) : result Source * world :=
  let '(fail, w) := next_fault w in
  if fail then (Exn, w)
  else
    match src_id obj with
    | Some i =>
        let l :=
          if bool_decide (i ∈ source_ids (db_sources w))
          then (λ r, if decide (src_id r = Some i) then obj else r)
                 <$> db_sources w
          else db_sources w ++ [obj] in
        (Ok obj, {| db_sources := l; db_versions := db_versions w;
                    clock := clock w; faults := faults w |})
    | None =>
        let obj := set_src_id (Some (fresh_id (source_ids (db_sources w)))) obj in
        (Ok obj, {| db_sources := db_sources w ++ [obj];
                    db_versions := db_versions w;
                    clock := clock w; faults := faults w |})
    end.

(** [version.save()] on a [SourceVersion]; an insert stamps [created_at]. *)
Definition save_version (obj : SourceVersion) (w : world)
  : result SourceVersion * world :=
  let '(fail, w) := next_fault w in
  if fail then (Exn, w)
  else
    let insert (obj : SourceVersion) :=
      let obj := set_created_at (clock w) obj in
      (Ok obj, {| db_sources := db_sources w;
                  db_versions := db_versions w ++ [stored obj];
                  clock := S (clock w); faults := faults w |}) in
    match id obj with
    | Some i =>
        if bool_decide (i ∈ version_ids (db_versions w))
        then
          (Ok obj, {| db_sources := db_sources w;
                      db_versions :=
                        (λ r, if decide (id r = Some i) then stored obj else r)
                          <$> db_versions w;
                      clock := clock w; faults := faults w |})
        else insert obj
    | None =>
        insert (set_id (Some (fresh_id (version_ids (db_versions w)))) obj)
    end.

(** [obj.delete()]: Django asserts that the object has a primary key before
    it touches the store; otherwise every record with that key goes. *)
Definition delete_source (obj : Source) (w : world) : result unit * world :=
  match src_id obj with
  | None => (Exn, w)
  | Some i =>
      let '(fail, w) := next_fault w in
      if fail then (Exn, w)
      else
        (Ok (), {| db_sources := filter (λ r, src_id r ≠ Some i) (db_sources w);
                   db_versions := db_versions w;
                   clock := clock w; faults := faults w |})
  end.

Definition delete_version (obj : SourceVersion) (w : world)
  : result unit * world :=
  match id obj with
  | None => (Exn, w)
  | Some i =>
      let '(fail, w) := next_fault w in
      if fail then (Exn, w)
      else
        (Ok (), {| db_sources := db_sources w;
                   db_versions := filter (λ r, id r ≠ Some i) (db_versions w);
                   clock := clock w; faults := faults w |})
  end.

(** ** Queries over versions *)

(** The columns of [BaseModel] and [ResourceVersionModel] that the version
    queries filter and order on; every concrete version model has them. *)
Class ResourceVersion (V : Type) := {
  rv_versioned_object_id : V → option ident;
  rv_is_active : V → bool;
  rv_released : V → bool;
  rv_created_at : V → nat
}.

Global Instance SourceVersion_rv : ResourceVersion SourceVersion := {|
  rv_versioned_object_id := versioned_object_id;
  rv_is_active := is_active;
  rv_released := released;
  rv_created_at := created_at
|}.

Global Instance ConceptVersion_rv : ResourceVersion ConceptVersion := {|
  rv_versioned_object_id := λ v, Some (cv_versioned_object_id v);
  rv_is_active := cv_is_active;
  rv_released := cv_released;
  rv_created_at := cv_created_at
|}.

Section order_by.
Context {V : Type} `{ResourceVersion V}.

Fixpoint insert_newest_first (v : V) (l : list V) : list V :=
    match l with
    | [] => [v]
    | w :: l' =>
        if decide (rv_created_at w ≤ rv_created_at v)
        then v :: w :: l'
        else w :: insert_newest_first v l'
    end.

  (** [.order_by('-created_at')]: newest first, ties in stored order. *)
Definition order_by_created_at_desc (l : list V) : list V :=
    foldr insert_newest_first [] l.
End order_by.

Module ResourceVersionModel.
Section queries.
Context {V : Type} `{ResourceVersion V}.

    (** [objects] is the collection of the version model of the versioned
        object, [versioned_object_id] the object's own id. *)
Definition get_latest_version_of (objects : list V)
        (versioned_object_id : option ident) : option V :=
      let versions :=
        order_by_created_at_desc
          (filter (λ v, rv_versioned_object_id v = versioned_object_id
                        ∧ rv_is_active v = true) objects) in
      head versions.
End queries.
End ResourceVersionModel.

(** ** Python list primitives *)

(** [l.index(x)]: the position of the first element equal to [x];
    [None] stands for the [ValueError] of a missing element. *)
Fixpoint index (x : ident) (l : list ident) : option nat :=
  match l with
  | [] => None
  | y :: l' => if decide (y = x) then Some 0 else S <$> index x l'
  end.

(** Truth value of a Python string: only the empty string is false. *)
Definition truthy (s : string) : bool := bool_decide (s ≠ "").

(** ** Source versions *)

Module SourceVersion.

  (** [update_concept_version(self, concept_version)], as a function of
      the member list [self.concepts]. *)
Definition update_concept_version_list (concepts : list ident)
      (concept_version : ConceptVersion) : list ident :=
    match cv_previous_version concept_version with
    | Some previous_version_id =>
        if bool_decide (previous_version_id ∈ concepts)
        then
          match index previous_version_id concepts with
          | Some index => <[index := cv_id concept_version]> concepts
          | None => concepts
          end
        else concepts ++ [cv_id concept_version]
    | None => concepts ++ [cv_id concept_version]
    end.

Definition update_concept_version (self : SourceVersion)
      (concept_version : ConceptVersion) : SourceVersion :=
    set_concepts (update_concept_version_list (concepts self) concept_version)
      self.

  (** Following a version foreign key: the record with that id, and
      [DoesNotExist] when there is none. *)
Definition fetch (objects : list SourceVersion) (i : ident)
    : result SourceVersion :=
    match filter (λ r, id r = Some i) objects with
    | r :: _ => Ok r
    | [] => Exn
    end.

  (** The properties [previous_version_mnemonic] and
    [parent_version_mnemonic] of [ResourceVersionModel]: the mnemonic of
    the linked version, [None] without a link. *)
Definition previous_version_mnemonic (objects : list SourceVersion)
    (self : SourceVersion) : result (option string) :=
  match previous_version self with
  | Some i =>
      match fetch objects i with
      | Ok r => Ok (Some (mnemonic r))
      | Exn => Exn
      end
  | None => Ok None
  end.

Definition parent_version_mnemonic (objects : list SourceVersion)
    (self : SourceVersion) : result (option string) :=
  match parent_version self with
  | Some i =>
      match fetch objects i with
      | Ok r => Ok (Some (mnemonic r))
      | Exn => Exn
      end
  | None => Ok None
  end.

(** [self.previous_version or self.parent_version]. *)
Definition seed_concepts_from (objects : list SourceVersion)
      (self : SourceVersion) : result (option SourceVersion) :=
    match previous_version self with
    | Some i =>
        match fetch objects i with Ok r => Ok (Some r) | Exn => Exn end
    | None =>
        match parent_version self with
        | Some i =>
            match fetch objects i with Ok r => Ok (Some r) | Exn => Exn end
        | None => Ok None
        end
    end.

Definition seed_concepts (objects : list SourceVersion)
      (self : SourceVersion) : result SourceVersion :=
    match seed_concepts_from objects self with
    | Ok (Some seed_from) => Ok (set_concepts (concepts seed_from) self)
    | Ok None => Ok self
    | Exn => Exn
    end.

  (** [for_base_object(source, label, previous_version, parent_version,
      released)].  The type test on [source] is the function's argument
      type here; [not source.id] holds for a missing and for an empty id. *)
Definition for_base_object (source : Source) (label : string)
      (previous_version parent_version : option ident) (released : bool)
    : result SourceVersion :=
    match src_id source with
    | None => Exn
    | Some i =>
        if truthy i then
          Ok {| id := None; mnemonic := label;
                versioned_object_id := src_id source;
                released := released;
                previous_version := previous_version;
                parent_version := parent_version;
                name := src_name source;
                full_name := src_full_name source;
                source_type := src_source_type source;
                public_access := src_public_access source;
                default_locale := src_default_locale source;
                supported_locales := src_supported_locales source;
                website := src_website source;
                description := src_description source;
                concepts := [];
                is_active := true;
                created_at := 0;
                _previous_version_mnemonic := None;
                _parent_version_mnemonic := None;
                _was_released := None |}
        else Exn
    end.

End SourceVersion.

(** A keyword argument that may be left out of the call. *)
Inductive kwarg (A : Type) :=
  | Absent
  | Given (a : A).
Arguments Absent {A}.
Arguments Given {A} a.

(** ** Concept containers *)

Module ConceptContainerModel.

  (** The keyword arguments that [persist_new] pops. *)
Record kwargs := {
    parent_resource : option parent_ref;
    owner : option ident
  }.

  (** [cls.name], which the messages are formatted with.  [name] is a
      model field, and Django keeps the fields of a model out of the
      namespace of its class: the look-up on the class raises
      [AttributeError]. *)
Definition cls_name : result string := Exn.

Definition num_versions (self : Source) (w : world) : nat :=
    length (filter (λ v, versioned_object_id v = src_id self) (db_versions w)).

  (** The [finally] block of [persist_new] when [persisted] is still false.
      It runs while an exception is in flight and has no [return] of its
      own, so an exception goes on to the caller in every case.  Its first
      statement formats the message with [cls.name]; that look-up raises,
      and the statements after it, the two deletes, are not reached. *)
Definition persist_new_finally (errors : error_dict)
      (version : option SourceVersion) (obj : Source) (w : world)
    : outcome * world :=
    match cls_name with
    | Exn => (Raised, w)
    | Ok cls_name =>
        let _errors :=
          <["non_field_errors" :=
              Msg ("An error occurred while trying to persist new "
                   +:+ cls_name +:+ ".")]> errors in
        match version with
        | Some version =>
            match delete_version version w with
            | (Ok _, w) => let '(_, w) := delete_source obj w in (Raised, w)
            | (Exn, w) => (Raised, w)
            end
        | None => let '(_, w) := delete_source obj w in (Raised, w)
        end
    end.

Section persist.
    (** [obj.full_clean()]: the [message_dict] of the [ValidationError] it
        raises, empty when the object is valid.  Field validation is a
        collaborator of the protocol. *)
Variable full_clean : list Source → Source → error_dict.

Definition persist_new (obj : Source) (kw : kwargs) (w : world)
      : outcome * world :=
      let errors : error_dict := ∅ in
      let parent_resource := parent_resource kw in
      let errors :=
        match parent_resource with
        | None => <["parent" := Msg "Source parent cannot be None."]> errors
        | Some _ => errors
        end in
      let user := owner kw in
      let errors :=
        match user with
        | None => <["owner" := Msg "Source owner cannot be None."]> errors
        | Some _ => errors
        end in
      if decide (errors ≠ ∅) then (Returned errors, w)
      else
        let obj := set_src_parent parent_resource obj in
        let obj := set_src_owner user obj in
        let errors := full_clean (db_sources w) obj ∪ errors in
        if decide (errors ≠ ∅) then (Returned errors, w)
        else
          match save_source obj w with
          | (Exn, w) => persist_new_finally errors None obj w
          | (Ok obj, w) =>
              match SourceVersion.for_base_object obj "INITIAL" None None false
              with
              | Exn => persist_new_finally errors None obj w
              | Ok version =>
                  let version := set_released true version in
                  match save_version version w with
                  | (Exn, w) => persist_new_finally errors (Some version) obj w
                  | (Ok version, w) =>
                      let version :=
                        set_mnemonic (default "" (id version)) version in
                      match save_version version w with
                      | (Exn, w) =>
                          persist_new_finally errors (Some version) obj w
                      | (Ok version, w) => (Returned errors, w)
                      end
                  end
              end
          end.

(** [persist_changes(cls, obj, **kwargs)] of a container.  The keyword
    [parent_resource] defaults to [obj.parent]; it is tested and then
    dropped, [obj.parent] is not assigned.  [obj.save] is outside any
    [try]. *)
Definition persist_changes (obj : Source)
    (kw_parent_resource : kwarg (option parent_ref)) (w : world)
  : outcome * world :=
  let errors : error_dict := ∅ in
  let parent_resource :=
    match kw_parent_resource with
    | Given p => p
    | Absent => src_parent obj
    end in
  let errors :=
    match parent_resource with
    | None => <["parent" := Msg "Source parent cannot be None."]> errors
    | Some _ => errors
    end in
  let errors := full_clean (db_sources w) obj ∪ errors in
  if decide (errors ≠ ∅) then (Returned errors, w)
  else
    match save_source obj w with
    | (Exn, w) => (Raised, w)
    | (Ok _, w) => (Returned errors, w)
    end.
End persist.

End ConceptContainerModel.

(** ** Concept-container versions *)

Module ConceptContainerVersionModel.

Record kwargs := {
    kw_versioned_object : kwarg (option Source);
    kw_mnemonic : kwarg string;
    kw_seed_concepts : bool
  }.

(** [cls.name] on the version class: [name] is a model field there too,
    and the look-up on the class raises [AttributeError]. *)
Definition cls_name : result string := Exn.

Definition get_latest_version_of (objects : list SourceVersion)
      (versioned_object_id : option ident) : option SourceVersion :=
    let versions :=
      order_by_created_at_desc
        (filter (λ v, rv_versioned_object_id v = versioned_object_id
                      ∧ rv_released v = true) objects) in
    head versions.

  (** The generic foreign key [obj.versioned_object]: the source stored
      under [versioned_object_id], if any. *)
Definition versioned_object (obj : SourceVersion) (w : world)
    : option Source :=
    match versioned_object_id obj with
    | Some i => head (filter (λ s, src_id s = Some i) (db_sources w))
    | None => None
    end.

  (** [cls.objects.filter(versioned_object_id=.., mnemonic=..)]. *)
Definition by_mnemonic (w : world) (vo_id : option ident) (m : string)
    : list SourceVersion :=
    filter (λ v, versioned_object_id v = vo_id ∧ mnemonic v = m)
      (db_versions w).

  (** [cls.objects.get(versioned_object_id=.., released=True)]: the one
      match, and an exception for none or several. *)
Definition get_released (w : world) (vo_id : option ident)
    : result SourceVersion :=
    match filter (λ v, versioned_object_id v = vo_id ∧ released v = true)
            (db_versions w) with
    | [r] => Ok r
    | _ => Exn
    end.

  (** The block that resolves [_previous_version_mnemonic] into the
      [previous_version] link. *)
Definition resolve_previous_version (w : world) (vo_id : option ident)
      (errors : error_dict) (obj : SourceVersion) : error_dict * SourceVersion :=
    match _previous_version_mnemonic obj with
    | Some m =>
        if truthy m then
          match by_mnemonic w vo_id m with
          | [] =>
              (<["previousVersion" :=
                   Msgs ["Previous version " +:+ m +:+ " does not exist."]]>
                 errors, obj)
          | r :: _ =>
              if decide (mnemonic obj = m) then
                (<["previousVersion" :=
                     Msgs ["Previous version cannot be the same as current version."]]>
                   errors, obj)
              else
                (errors,
                 del_previous_version_mnemonic (set_previous_version (id r) obj))
          end
        else (errors, obj)
    | None => (errors, obj)
    end.

  (** The same for [_parent_version_mnemonic] and [parent_version]. *)
Definition resolve_parent_version (w : world) (vo_id : option ident)
      (errors : error_dict) (obj : SourceVersion) : error_dict * SourceVersion :=
    match _parent_version_mnemonic obj with
    | Some m =>
        if truthy m then
          match by_mnemonic w vo_id m with
          | [] =>
              (<["parentVersion" :=
                   Msgs ["Parent version " +:+ m +:+ " does not exist."]]>
                 errors, obj)
          | r :: _ =>
              if decide (mnemonic obj = m) then
                (<["parentVersion" :=
                     Msgs ["Parent version cannot be the same as current version."]]>
                   errors, obj)
              else
                (errors,
                 del_parent_version_mnemonic (set_parent_version (id r) obj))
          end
        else (errors, obj)
    | None => (errors, obj)
    end.

  (** The [finally] block of [persist_changes] when [persisted] is still
      false: the exception in flight goes on to the caller after it. *)
Definition persist_changes_finally (errors : error_dict)
      (previous_release : option SourceVersion) (w : world)
    : outcome * world :=
    let w :=
      match previous_release with
      | Some previous_release =>
          snd (save_version (set_released true previous_release) w)
      | None => w
      end in
    let _errors :=
      <["non_field_errors" :=
          Msgs ["Encountered an error while updating version."]]> errors in
    (Raised, w).

  (** The [try] block of [persist_changes]. *)
Definition persist_changes_try (errors : error_dict)
      (previous_release : option SourceVersion) (obj : SourceVersion)
      (w : world) : outcome * world :=
    match previous_release with
    | Some previous_release =>
        let previous_release := set_released false previous_release in
        match save_version previous_release w with
        | (Exn, w) => persist_changes_finally errors (Some previous_release) w
        | (Ok previous_release, w) =>
            match save_version obj w with
            | (Exn, w) =>
                persist_changes_finally errors (Some previous_release) w
            | (Ok _, w) => (Returned errors, w)
            end
        end
    | None =>
        match save_version obj w with
        | (Exn, w) => persist_changes_finally errors None w
        | (Ok _, w) => (Returned errors, w)
        end
    end.

Definition persist_changes (obj : SourceVersion) (kw : kwargs) (w : world)
    : outcome * world :=
    let errors : error_dict := ∅ in
    let versioned_object :=
      match kw_versioned_object kw with
      | Given o => o
      | Absent => versioned_object obj w
      end in
    match versioned_object with
    | None =>
        (Returned
           (<["non_field_errors" := Msgs ["Must specify a versioned object."]]>
              errors), w)
    | Some versioned_object =>
        let obj := set_versioned_object_id (src_id versioned_object) obj in
        let old_mnemonic := mnemonic obj in
        let mnemonic' :=
          match kw_mnemonic kw with
          | Given m => m
          | Absent => mnemonic obj
          end in
        if bool_decide (mnemonic' ≠ old_mnemonic)
           && bool_decide
                (by_mnemonic w (src_id versioned_object) (mnemonic obj) ≠ [])
        then
          match cls_name with
          | Exn => (Raised, w)
          | Ok cls_name =>
              (Returned
                 (<["mnemonic" :=
                      Msgs ["Version with mnemonic " +:+ mnemonic obj
                            +:+ " already exists for " +:+ cls_name +:+ " "
                            +:+ src_mnemonic versioned_object +:+ "."]]>
                    errors),
               w)
          end
        else
          let obj := set_mnemonic mnemonic' obj in
          let '(errors, obj) :=
            resolve_previous_version w (src_id versioned_object) errors obj in
          let '(errors, obj) :=
            resolve_parent_version w (src_id versioned_object) errors obj in
          if decide (errors ≠ ∅) then (Returned errors, w)
          else
            let seeded :=
              if kw_seed_concepts kw
              then SourceVersion.seed_concepts (db_versions w) obj
              else Ok obj in
            match seeded with
            | Exn => (Raised, w)
            | Ok obj =>
                let toggled :=
                  match _was_released obj with
                  | Some was_released =>
                      if released obj && negb was_released
                      then
                        match get_released w (versioned_object_id obj) with
                        | Ok r => Ok (Some r)
                        | Exn => Exn
                        end
                      else Ok None
                  | None => Ok None
                  end in
                match toggled with
                | Exn => (Raised, w)
                | Ok previous_release =>
                    persist_changes_try errors previous_release
                      (del_was_released obj) w
                end
            end
    end.

  (** [persist_new] of a version: release it and seed its members. *)
Definition persist_new (obj : SourceVersion) (kw : kwargs) (w : world)
    : outcome * world :=
    let obj := set_released true obj in
    persist_changes obj
      {| kw_versioned_object := kw_versioned_object kw;
         kw_mnemonic := kw_mnemonic kw;
         kw_seed_concepts := true |} w.

End ConceptContainerVersionModel.

(** ** Logical deletion *)

Definition set_src_is_active (b : bool) (s : Source) : Source :=
  {| src_id := src_id s; src_mnemonic := src_mnemonic s;
     src_owner := src_owner s;
     src_parent := src_parent s; src_name := src_name s;
     src_full_name := src_full_name s; src_source_type := src_source_type s;
     src_public_access := src_public_access s;
     src_default_locale := src_default_locale s;
     src_supported_locales := src_supported_locales s;
     src_website := src_website s; src_description := src_description s;
     src_is_active := b |}.

Module BaseModel.

(** [soft_delete(self)] and [undelete(self)], on a source: the flag is
    flipped and the object saved only when the flag has the other value.
    The result is the object as it is after the call. *)
Definition soft_delete (self : Source) (w : world) : result Source * world :=
  if src_is_active self
  then save_source (set_src_is_active false self) w
  else (Ok self, w).

Definition undelete (self : Source) (w : world) : result Source * world :=
  if negb (src_is_active self)
  then save_source (set_src_is_active true self) w
  else (Ok self, w).

End BaseModel.

(** The user that the [post_save] signal hands to its receivers. *)
Record User := {
  user_id : ident;
  user_is_active : bool
}.

(** A [for] loop over sources whose body can raise: the first exception
    ends the loop. *)
Fixpoint for_each (body : Source → world → result Source * world)
    (l : list Source) (w : world) : result unit * world :=
  match l with
  | [] => (Ok (), w)
  | source :: l' =>
      match body source w with
      | (Ok _, w) => for_each body l' w
      | (Exn, w) => (Exn, w)
      end
  end.

(** [propagate_owner_status], the receiver in [sources/models.py]: the
    sources of the saved user follow the user's [is_active]. *)
Definition propagate_owner_status (instance : User) (w : world)
  : result unit * world :=
  let owned :=
    filter (λ s, src_owner s = Some (user_id instance)) (db_sources w) in
  if user_is_active instance
  then for_each BaseModel.undelete owned w
  else for_each BaseModel.soft_delete owned w.

(** ** Member lists as shared Python objects *)

(** [self.concepts] is a reference to a list object; assignment to an index
    and [append] change that object in place, while [list(..)] makes a new
    one.  Version objects and list objects live in a store of their own,
    so that two versions holding the same list would be seen to. *)
Module Memory.

Definition loc := nat.

Record version_obj := {
    o_concepts : loc;
    o_previous_version : option loc;
    o_parent_version : option loc
  }.

Record mem := {
    objs : gmap loc version_obj;
    lists : gmap loc (list ident)
  }.

  (** [self.concepts], read through the reference. *)
Definition read_concepts (self : loc) (m : mem) : option (list ident) :=
    o ← objs m !! self; lists m !! o_concepts o.

  (** [update_concept_version]: the list object of [self] is changed in
      place. *)
Definition update_concept_version (self : loc)
      (concept_version : ConceptVersion) (m : mem) : option mem :=
    o ← objs m !! self;
    l ← lists m !! o_concepts o;
    Some {| objs := objs m;
            lists := <[o_concepts o :=
                         SourceVersion.update_concept_version_list l
                           concept_version]> (lists m) |}.

  (** [seed_concepts]: [self.concepts] is bound to a new list object
      holding the elements of the ancestor's list. *)
Definition seed_concepts (self : loc) (m : mem) : option mem :=
    o ← objs m !! self;
    match
      match o_previous_version o with
      | Some p => Some p
      | None => o_parent_version o
      end
    with
    | Some seed_concepts_from =>
        a ← objs m !! seed_concepts_from;
        l ← lists m !! o_concepts a;
        let new := fresh (dom (lists m)) in
        Some {| objs := <[self := {| o_concepts := new;
                                     o_previous_version := o_previous_version o;
                                     o_parent_version := o_parent_version o |}]>
                          (objs m);
                lists := <[new := l]> (lists m) |}
    | None => Some m
    end.

End Memory.

(** ** Localized texts *)

Record LocalizedText := {
  lt_name : string;
  lt_locale : string;
  lt_locale_preferred : bool
}.

(** Modelled from the spec: [concepts/models.py], where [Concept] defines
    [display_name] and [display_locale], is not part of the sources.
Section 4.5: the display text is the first entry flagged preferred in
    its locale if one exists, else the first entry in list order; no entry
    gives no display text. *)
Fixpoint first_preferred (names : list LocalizedText) : option LocalizedText :=
  match names with
  | [] => None
  | n :: names' =>
      if lt_locale_preferred n then Some n else first_preferred names'
  end.

Definition preferred_name (names : list LocalizedText) : option LocalizedText :=
  match first_preferred names with
  | Some n => Some n
  | None => head names
  end.

Definition display_name (names : list LocalizedText) : option string :=
  lt_name <$> preferred_name names.

Definition display_locale (names : list LocalizedText) : option string :=
  lt_locale <$> preferred_name names.

(** ** Concepts *)

Record Concept := {
  c_id : ident;
  c_mnemonic : string;
  c_concept_class : string;
  c_names : list LocalizedText;
  c_retired : bool
}.

Module Concept.

Definition num_versions (self : Concept) (objects : list ConceptVersion)
    : nat :=
    length (filter (λ v, cv_versioned_object_id v = c_id self) objects).

  (** Modelled from the spec: [Concept.retire] lives in
      [concepts/models.py], which is not part of the sources.  Section 4.2:
      a no-op returning failure if already retired; otherwise set
      [retired = true] on the resource, persist a new version snapshot of
      it and return success.  The snapshot is unreleased, as a version
      made from a concept is in the tests, and follows the latest version.
      [now] is the creation time stamped on it. *)
Definition retire (concept : Concept) (objects : list ConceptVersion)
      (now : nat) : bool * Concept * list ConceptVersion :=
    if c_retired concept then (false, concept, objects)
    else
      let concept :=
        {| c_id := c_id concept; c_mnemonic := c_mnemonic concept;
           c_concept_class := c_concept_class concept;
           c_names := c_names concept; c_retired := true |} in
      let latest :=
        ResourceVersionModel.get_latest_version_of objects
          (Some (c_id concept)) in
      let version :=
        {| cv_id := fresh_id (cv_id <$> objects);
           cv_versioned_object_id := c_id concept;
           cv_released := false;
           cv_previous_version := cv_id <$> latest;
           cv_retired := c_retired concept;
           cv_is_active := true;
           cv_created_at := now |} in
      (true, concept, objects ++ [version]).

End Concept.

(** ** Measures and example data *)

(** [newest v l]: [v] is in [l] and nothing in [l] was created later. *)
Definition newest {V : Type} `{ResourceVersion V} (v : V) (l : list V) : Prop :=
  v ∈ l ∧ ∀ w, w ∈ l → rv_created_at w ≤ rv_created_at v.

Definition members_v1 : SourceVersion :=
  {| id := Some "sv1"; mnemonic := "sv1"; versioned_object_id := Some "s1";
     released := true; previous_version := None; parent_version := None;
     name := "source1"; full_name := None; source_type := "dictionary";
     public_access := "Edit"; default_locale := "en";
     supported_locales := Some ["en"]; website := None; description := None;
     concepts := ["a"; "b"; "c"]; is_active := true; created_at := 0;
     _previous_version_mnemonic := None; _parent_version_mnemonic := None;
     _was_released := None |}.

Definition concept_version_b2 : ConceptVersion :=
  {| cv_id := "b2"; cv_versioned_object_id := "cb"; cv_released := false;
     cv_previous_version := Some "b"; cv_retired := false;
     cv_is_active := true; cv_created_at := 5 |}.

Definition concept_version_d1 : ConceptVersion :=
  {| cv_id := "d1"; cv_versioned_object_id := "cd"; cv_released := false;
     cv_previous_version := None; cv_retired := false;
     cv_is_active := true; cv_created_at := 6 |}.

(** How often an id occurs in a member list. *)
Definition occurrences (x : ident) (l : list ident) : nat :=
  length (filter (λ y, y = x) l).

Definition names_A_B : list LocalizedText :=
  [ {| lt_name := "A"; lt_locale := "en"; lt_locale_preferred := false |};
    {| lt_name := "B"; lt_locale := "fr"; lt_locale_preferred := true |} ].

Definition names_A : list LocalizedText :=
  [ {| lt_name := "A"; lt_locale := "en"; lt_locale_preferred := false |} ].

Definition version_at (i : ident) (rel : bool) (t : nat) : SourceVersion :=
  {| id := Some i; mnemonic := i; versioned_object_id := Some "s1";
     released := rel; previous_version := None; parent_version := None;
     name := "source1"; full_name := None; source_type := "dictionary";
     public_access := "Edit"; default_locale := "en";
     supported_locales := Some ["en"]; website := None; description := None;
     concepts := []; is_active := true; created_at := t;
     _previous_version_mnemonic := None; _parent_version_mnemonic := None;
     _was_released := None |}.

Definition concept1 : Concept :=
  {| c_id := "c1"; c_mnemonic := "concept1"; c_concept_class := "First";
     c_names := []; c_retired := false |}.

Definition concept1_initial : ConceptVersion :=
  {| cv_id := "cv1"; cv_versioned_object_id := "c1"; cv_released := true;
     cv_previous_version := None; cv_retired := false; cv_is_active := true;
     cv_created_at := 3 |}.

Definition source1 : Source :=
  {| src_id := Some "s1"; src_mnemonic := "source1"; src_owner := Some "user1";
     src_parent := Some {| parent_type := UserProfile; parent_id := "up1" |};
     src_name := "source1"; src_full_name := Some "Source One";
     src_source_type := "dictionary"; src_public_access := "Edit";
     src_default_locale := "en"; src_supported_locales := Some ["en"];
     src_website := Some "www.source1.com";
     src_description := Some "This is the first test source";
     src_is_active := true |}.

Definition released_v1 : SourceVersion :=
  set_concepts ["a"; "b"] (version_at "v1" true 1).

Definition world1 (fs : list bool) : world :=
  {| db_sources := [source1]; db_versions := [released_v1];
     clock := 2; faults := fs |}.

Definition draft_v2 : SourceVersion :=
  {| id := None; mnemonic := "v2"; versioned_object_id := Some "s1";
     released := false; previous_version := None; parent_version := None;
     name := "source1"; full_name := Some "Source One";
     source_type := "dictionary"; public_access := "Edit";
     default_locale := "en"; supported_locales := Some ["en"];
     website := None; description := None; concepts := []; is_active := true;
     created_at := 0; _previous_version_mnemonic := Some "v1";
     _parent_version_mnemonic := None; _was_released := None |}.

Definition seeding_kwargs : ConceptContainerVersionModel.kwargs :=
  {| ConceptContainerVersionModel.kw_versioned_object := Absent;
     ConceptContainerVersionModel.kw_mnemonic := Absent;
     ConceptContainerVersionModel.kw_seed_concepts := true |}.

(** The validator of the examples: the [unique_together] constraint of
    [SubResourceBaseModel] on [mnemonic] and [parent_id], reported under
    [__all__]. *)
Definition full_clean_unique (objects : list Source) (obj : Source)
  : error_dict :=
  if bool_decide
       (Exists (λ r, src_mnemonic r = src_mnemonic obj
                     ∧ parent_id <$> src_parent r
                       = parent_id <$> src_parent obj
                     ∧ src_id r ≠ src_id obj) objects)
  then {[ "__all__" :=
            Msgs ["Source with this Mnemonic and Parent id already exists."] ]}
  else ∅.

Definition source2_draft : Source :=
  {| src_id := None; src_mnemonic := "source2"; src_owner := None;
     src_parent := None; src_name := "source2";
     src_full_name := Some "Source Two"; src_source_type := "reference";
     src_public_access := "View"; src_default_locale := "fr";
     src_supported_locales := Some ["fr"];
     src_website := Some "www.source2.com";
     src_description := Some "This is the second test source";
     src_is_active := true |}.

Definition owner_and_parent : ConceptContainerModel.kwargs :=
  {| ConceptContainerModel.parent_resource :=
       Some {| parent_type := Organization; parent_id := "org2" |};
     ConceptContainerModel.owner := Some "user2" |}.

Definition stored_v2 : SourceVersion := version_at "v2" false 2.

Definition world2 (fs : list bool) : world :=
  {| db_sources := [source1]; db_versions := [released_v1; stored_v2];
     clock := 3; faults := fs |}.

(** Version [v2] in memory, after an edit that sets its [released] flag. *)
Definition release_v2 : SourceVersion :=
  {| id := Some "v2"; mnemonic := "v2"; versioned_object_id := Some "s1";
     released := true; previous_version := None; parent_version := None;
     name := "source1"; full_name := None; source_type := "dictionary";
     public_access := "Edit"; default_locale := "en";
     supported_locales := Some ["en"]; website := None; description := None;
     concepts := []; is_active := true; created_at := 2;
     _previous_version_mnemonic := None; _parent_version_mnemonic := None;
     _was_released := Some false |}.

Definition no_kwargs : ConceptContainerVersionModel.kwargs :=
  {| ConceptContainerVersionModel.kw_versioned_object := Absent;
     ConceptContainerVersionModel.kw_mnemonic := Absent;
     ConceptContainerVersionModel.kw_seed_concepts := false |}.

Definition draft_v2_plain : SourceVersion :=
  {| id := None; mnemonic := "v2"; versioned_object_id := Some "s1";
     released := false; previous_version := None; parent_version := None;
     name := "source1"; full_name := Some "Source One";
     source_type := "dictionary"; public_access := "Edit";
     default_locale := "en"; supported_locales := Some ["en"];
     website := None; description := None; concepts := []; is_active := true;
     created_at := 0; _previous_version_mnemonic := None;
     _parent_version_mnemonic := None; _was_released := None |}.

Definition rename_kwargs (m : string) : ConceptContainerVersionModel.kwargs :=
  {| ConceptContainerVersionModel.kw_versioned_object := Absent;
     ConceptContainerVersionModel.kw_mnemonic := Given m;
     ConceptContainerVersionModel.kw_seed_concepts := false |}.

Definition no_owner : ConceptContainerModel.kwargs :=
  {| ConceptContainerModel.parent_resource :=
       Some {| parent_type := Organization; parent_id := "org2" |};
     ConceptContainerModel.owner := None |}.

(** The stored versions have primary keys, each its own. *)
Definition versions_wf (l : list SourceVersion) : Prop :=
  NoDup (id <$> l) ∧ ∀ r, r ∈ l → is_Some (id r).

(** [save] of a stored version, seen from the collection: the record with
    the key [i] becomes [x]. *)
Definition overwrite (i : ident) (x : SourceVersion) (r : SourceVersion)
  : SourceVersion :=
  if decide (id r = Some i) then x else r.

(** What the release swap does to a stored record: the record of the prior
    release [pr] is stored again without its flag. *)
Definition unrelease (pr : option SourceVersion) (r : SourceVersion)
  : SourceVersion :=
  match pr with
  | Some p => if decide (id r = id p) then stored (set_released false p) else r
  | None => r
  end.

Definition world0 : world :=
  {| db_sources := [source1]; db_versions := []; clock := 0; faults := [] |}.

Definition world_unreleased : world :=
  {| db_sources := [source1]; db_versions := [stored_v2]; clock := 3;
     faults := [] |}.

Definition orphan_draft : SourceVersion :=
  set_versioned_object_id None draft_v2_plain.

Definition draft_v2_child : SourceVersion :=
  {| id := None; mnemonic := "v2"; versioned_object_id := Some "s1";
     released := false; previous_version := None; parent_version := None;
     name := "source1"; full_name := Some "Source One";
     source_type := "dictionary"; public_access := "Edit";
     default_locale := "en"; supported_locales := Some ["en"];
     website := None; description := None; concepts := []; is_active := true;
     created_at := 0; _previous_version_mnemonic := None;
     _parent_version_mnemonic := Some "v1"; _was_released := None |}.

(** A run of versions of one concept: each has the one before it as its
    previous version; [prev] is the id the first one points to. *)
Fixpoint linked (prev : ident) (cs : list ConceptVersion) : Prop :=
  match cs with
  | [] => True
  | c :: cs' => cv_previous_version c = Some prev ∧ linked (cv_id c) cs'
  end.

Definition concept_version_c1 : ConceptVersion :=
  {| cv_id := "c1"; cv_versioned_object_id := "cc"; cv_released := true;
     cv_previous_version := None; cv_retired := false;
     cv_is_active := true; cv_created_at := 7 |}.

Definition concept_version_c2 : ConceptVersion :=
  {| cv_id := "c2"; cv_versioned_object_id := "cc"; cv_released := false;
     cv_previous_version := Some "c1"; cv_retired := false;
     cv_is_active := true; cv_created_at := 8 |}.

Definition concept_version_c3 : ConceptVersion :=
  {| cv_id := "c3"; cv_versioned_object_id := "cc"; cv_released := false;
     cv_previous_version := Some "c2"; cv_retired := true;
     cv_is_active := true; cv_created_at := 9 |}.

(** The stored sources have primary keys, each its own. *)
Definition sources_wf (l : list Source) : Prop :=
  NoDup (src_id <$> l) ∧ ∀ r, r ∈ l → is_Some (src_id r).

Definition user1 (active : bool) : User :=
  {| user_id := "user1"; user_is_active := active |}.

(** The fields of a source other than its time stamps, as one value. *)
Definition src_fields (s : Source) :=
  (src_id s, src_mnemonic s, src_owner s, src_parent s, src_name s,
   src_full_name s, src_source_type s, src_public_access s,
   src_default_locale s, src_supported_locales s, src_website s,
   src_description s, src_is_active s).

(** * Properties *)

(** ** The member index *)

Lemma index_Some (x : ident) (l : list ident) (i : nat) :
  index x l = Some i →
  l !! i = Some x ∧ ∀ j, j < i → l !! j ≠ Some x.
Proof.
  revert i. induction l as [|y l IH]; intros i; simpl; [done|].
  destruct (decide (y = x)) as [->|Hne].
  - intros [= <-]. split; [done|]. intros j Hj. lia.
  - destruct (index x l) as [k|] eqn:Hk; simpl; [|done].
    intros [= <-]. destruct (IH k eq_refl) as [Hat Hbefore].
    split; [done|]. intros [|j] Hj; simpl.
    + congruence.
    + apply Hbefore. lia.
Qed.

Lemma index_elem_of (x : ident) (l : list ident) :
  x ∈ l → is_Some (index x l).
Proof.
  induction l as [|y l IH]; simpl.
  - intros H. by apply elem_of_nil in H.
  - intros [->|H]%elem_of_cons.
    + rewrite decide_True by done. eauto.
    + destruct (decide (y = x)); [eauto|].
      destruct (IH H) as [k ->]. simpl. eauto.
Qed.

Lemma update_concept_version_list_append (l : list ident)
    (C : ConceptVersion) :
  cv_previous_version C = None
  ∨ (∃ p, cv_previous_version C = Some p ∧ p ∉ l) →
  SourceVersion.update_concept_version_list l C = l ++ [cv_id C].
Proof.
  unfold SourceVersion.update_concept_version_list.
  intros [->|(p & -> & Hp)]; [done|].
  by rewrite bool_decide_eq_false_2.
Qed.

Lemma update_concept_version_list_replace (l : list ident)
    (C : ConceptVersion) (p : ident) :
  cv_previous_version C = Some p → p ∈ l →
  ∃ i, index p l = Some i
       ∧ SourceVersion.update_concept_version_list l C = <[i := cv_id C]> l.
Proof.
  intros Hp Hin. unfold SourceVersion.update_concept_version_list.
  rewrite Hp, bool_decide_eq_true_2 by done.
  destruct (index_elem_of p l Hin) as [i Hi]. rewrite Hi. eauto.
Qed.

(** C4.  When the previous version of [C] is set and its id occurs in the
    member list of [V], [update_concept_version] puts [C]'s id at the index
    of the first such occurrence, keeps the length and leaves every other
    index as it was; otherwise it appends [C]'s id at the end. *)
Theorem update_concept_version_replaces_or_appends
    (V : SourceVersion) (C : ConceptVersion) :
  (∀ p, cv_previous_version C = Some p → p ∈ concepts V →
     ∃ i, concepts V !! i = Some p
          ∧ (∀ j, j < i → concepts V !! j ≠ Some p)
          ∧ concepts (SourceVersion.update_concept_version V C) !! i
            = Some (cv_id C)
          ∧ length (concepts (SourceVersion.update_concept_version V C))
            = length (concepts V)
          ∧ ∀ j, j ≠ i →
              concepts (SourceVersion.update_concept_version V C) !! j
              = concepts V !! j)
  ∧ (cv_previous_version C = None
     ∨ (∃ p, cv_previous_version C = Some p ∧ p ∉ concepts V) →
     concepts (SourceVersion.update_concept_version V C)
     = concepts V ++ [cv_id C]).
Proof.
  split.
  - intros p Hp Hin.
    destruct (update_concept_version_list_replace _ _ _ Hp Hin)
      as (i & Hi & Hupd).
    destruct (index_Some _ _ _ Hi) as [Hat Hbefore].
    exists i. simpl. rewrite Hupd.
    split_and!; [done|done| | |].
    + apply list_lookup_insert_eq. by eapply lookup_lt_Some.
    + apply length_insert.
    + intros j Hj. by apply list_lookup_insert_ne.
  - intros H. simpl. by apply update_concept_version_list_append.
Qed.

Example update_concept_version_replace_run :
  concepts (SourceVersion.update_concept_version members_v1 concept_version_b2)
  = ["a"; "b2"; "c"].
Proof. reflexivity. Qed.

Lemma update_concept_version_replaces_or_appends_witness :
  (∃ i, concepts members_v1 !! i = Some "b"
        ∧ (∀ j, j < i → concepts members_v1 !! j ≠ Some "b")
        ∧ concepts
            (SourceVersion.update_concept_version members_v1 concept_version_b2)
          !! i = Some "b2"
        ∧ length
            (concepts
               (SourceVersion.update_concept_version members_v1
                  concept_version_b2)) = 3
        ∧ ∀ j, j ≠ i →
            concepts
              (SourceVersion.update_concept_version members_v1
                 concept_version_b2) !! j = concepts members_v1 !! j)
  ∧ concepts (SourceVersion.update_concept_version members_v1 concept_version_d1)
    = ["a"; "b"; "c"; "d1"].
Proof.
  split.
  - apply (proj1 (update_concept_version_replaces_or_appends
                    members_v1 concept_version_b2) "b").
    + reflexivity.
    + simpl. apply list_elem_of_further, list_elem_of_here.
  - apply (proj2 (update_concept_version_replaces_or_appends
                    members_v1 concept_version_d1)).
    left. reflexivity.
Defined.

Lemma occurrences_app (x : ident) (l k : list ident) :
  occurrences x (l ++ k) = occurrences x l + occurrences x k.
Proof. unfold occurrences. by rewrite filter_app, length_app. Qed.

(** C10.  The choice between replacing and appending looks only at the id
    of the previous version.  A concept version without previous version,
    or whose previous version is not in the list, is appended whether or not
    its own id is in the list already, and two calls with a first version
    leave its id in the list two more times than before. *)
Theorem update_concept_version_ignores_own_id
    (V : SourceVersion) (C : ConceptVersion) :
  (cv_previous_version C = None
   ∨ (∃ p, cv_previous_version C = Some p ∧ p ∉ concepts V) →
   concepts (SourceVersion.update_concept_version V C)
   = concepts V ++ [cv_id C]
   ∧ occurrences (cv_id C)
       (concepts (SourceVersion.update_concept_version V C))
     = S (occurrences (cv_id C) (concepts V)))
  ∧ (cv_previous_version C = None →
     let V2 :=
       SourceVersion.update_concept_version
         (SourceVersion.update_concept_version V C) C in
     concepts V2 = concepts V ++ [cv_id C; cv_id C]
     ∧ occurrences (cv_id C) (concepts V2)
       = 2 + occurrences (cv_id C) (concepts V)).
Proof.
  assert (Hone : occurrences (cv_id C) [cv_id C] = 1).
  { unfold occurrences. by rewrite filter_cons_True. }
  split.
  - intros H. simpl.
    rewrite (update_concept_version_list_append _ _ H).
    split; [done|]. rewrite occurrences_app, Hone. lia.
  - intros Hnone. simpl.
    rewrite !update_concept_version_list_append by by left.
    rewrite <- app_assoc. simpl. split; [done|].
    change [cv_id C; cv_id C] with ([cv_id C] ++ [cv_id C]).
    rewrite !occurrences_app, Hone. lia.
Qed.

Example update_concept_version_twice_run :
  concepts
    (SourceVersion.update_concept_version
       (SourceVersion.update_concept_version members_v1 concept_version_d1)
       concept_version_d1)
  = ["a"; "b"; "c"; "d1"; "d1"].
Proof. reflexivity. Qed.

Lemma update_concept_version_ignores_own_id_witness :
  let V1 := SourceVersion.update_concept_version members_v1 concept_version_d1 in
  (concepts (SourceVersion.update_concept_version V1 concept_version_d1)
   = concepts V1 ++ ["d1"]
   ∧ occurrences "d1"
       (concepts (SourceVersion.update_concept_version V1 concept_version_d1))
     = S (occurrences "d1" (concepts V1)))
  ∧ (concepts
       (SourceVersion.update_concept_version
          (SourceVersion.update_concept_version members_v1 concept_version_d1)
          concept_version_d1)
     = ["a"; "b"; "c"; "d1"; "d1"]
     ∧ occurrences "d1"
         (concepts
            (SourceVersion.update_concept_version
               (SourceVersion.update_concept_version members_v1
                  concept_version_d1) concept_version_d1))
       = 2 + occurrences "d1" (concepts members_v1)).
Proof.
  intros V1. split.
  - apply (proj1 (update_concept_version_ignores_own_id V1 concept_version_d1)).
    left. reflexivity.
  - apply (proj2 (update_concept_version_ignores_own_id
                    members_v1 concept_version_d1)).
    reflexivity.
Defined.

(** ** Display name *)

Lemma first_preferred_Some (names : list LocalizedText) (i : nat)
    (n : LocalizedText) :
  names !! i = Some n → lt_locale_preferred n = true →
  (∀ j m, j < i → names !! j = Some m → lt_locale_preferred m = false) →
  first_preferred names = Some n.
Proof.
  revert i. induction names as [|x names IH]; intros i; [done|].
  destruct i as [|i]; simpl.
  - intros [= ->] -> _. done.
  - intros Hi Hn Hbefore.
    rewrite (Hbefore 0 x) by (simpl; done || lia).
    apply (IH i); [done|done|].
    intros j m Hj Hm. apply (Hbefore (S j) m); [lia|done].
Qed.

Lemma first_preferred_None (names : list LocalizedText) :
  (∀ m, m ∈ names → lt_locale_preferred m = false) →
  first_preferred names = None.
Proof.
  induction names as [|x names IH]; [done|].
  intros H. simpl. rewrite (H x) by apply list_elem_of_here.
  apply IH. intros m Hm. apply H. by apply list_elem_of_further.
Qed.

(** C9.  The display name and locale come from the first entry whose
    preferred flag is set, if there is one, else from the first entry of
    the list; for the empty list both are absent. *)
Theorem display_name_locale_resolution (names : list LocalizedText) :
  (∀ i n, names !! i = Some n → lt_locale_preferred n = true →
     (∀ j m, j < i → names !! j = Some m → lt_locale_preferred m = false) →
     display_name names = Some (lt_name n)
     ∧ display_locale names = Some (lt_locale n))
  ∧ ((∀ m, m ∈ names → lt_locale_preferred m = false) →
     display_name names = lt_name <$> head names
     ∧ display_locale names = lt_locale <$> head names)
  ∧ display_name [] = None
  ∧ display_locale [] = None.
Proof.
  unfold display_name, display_locale, preferred_name.
  split_and!; [| |done|done].
  - intros i n Hi Hn Hbefore.
    by rewrite (first_preferred_Some names i n Hi Hn Hbefore).
  - intros H. by rewrite (first_preferred_None names H).
Qed.

Lemma display_name_locale_resolution_witness :
  (display_name names_A_B = Some "B" ∧ display_locale names_A_B = Some "fr")
  ∧ (display_name names_A = Some "A" ∧ display_locale names_A = Some "en").
Proof.
  split.
  - apply (proj1 (display_name_locale_resolution names_A_B) 1
             {| lt_name := "B"; lt_locale := "fr";
                lt_locale_preferred := true |}).
    + reflexivity.
    + reflexivity.
    + intros [|j] m Hj; [|lia]. intros [= <-]. reflexivity.
  - apply (proj1 (proj2 (display_name_locale_resolution names_A))).
    intros m Hm. apply list_elem_of_singleton in Hm as ->. reflexivity.
Defined.

(** ** Latest version *)

Section order_by_facts.
Context {V : Type} `{ResourceVersion V}.

Lemma head_insert_newest_first (v : V) (l : list V) :
  head (insert_newest_first v l)
  = Some (match head l with
          | Some w => if decide (rv_created_at w ≤ rv_created_at v) then v else w
          | None => v
          end).
Proof.
  destruct l as [|w l]; simpl; [done|].
  by destruct (decide (rv_created_at w ≤ rv_created_at v)).
Qed.

Lemma head_order_by_None (l : list V) :
  head (order_by_created_at_desc l) = None ↔ l = [].
Proof.
  destruct l as [|x l]; simpl; [done|].
  rewrite head_insert_newest_first. split; discriminate.
Qed.

Lemma head_order_by_newest (l : list V) (v : V) :
  head (order_by_created_at_desc l) = Some v → newest v l.
Proof.
  revert v. induction l as [|x l IH]; intros v; simpl; [done|].
  rewrite head_insert_newest_first.
  destruct (head (order_by_created_at_desc l)) as [w|] eqn:Hw.
  - destruct (IH w eq_refl) as [Hin Hmax].
    destruct (decide (rv_created_at w ≤ rv_created_at x)) as [Hle|Hgt];
      intros [= <-]; split.
    + apply list_elem_of_here.
    + intros u [->|Hu]%elem_of_cons; [done|].
      specialize (Hmax u Hu). lia.
    + by apply list_elem_of_further.
    + intros u [->|Hu]%elem_of_cons; [lia|]. by apply Hmax.
  - apply head_order_by_None in Hw as ->. intros [= <-]. split.
    + apply list_elem_of_here.
    + by intros u ->%list_elem_of_singleton.
Qed.

End order_by_facts.

Lemma plain_latest_spec {V : Type} `{ResourceVersion V}
    (objects : list V) (oid : option ident) :
  match ResourceVersionModel.get_latest_version_of objects oid with
  | Some v =>
      v ∈ objects ∧ rv_versioned_object_id v = oid ∧ rv_is_active v = true
      ∧ ∀ w, w ∈ objects → rv_versioned_object_id w = oid →
             rv_is_active w = true → rv_created_at w ≤ rv_created_at v
  | None =>
      ∀ w, w ∈ objects → rv_versioned_object_id w = oid →
           rv_is_active w ≠ true
  end.
Proof.
  unfold ResourceVersionModel.get_latest_version_of.
  match goal with |- context [head ?l] => destruct (head l) as [v|] eqn:Hv end.
  - apply head_order_by_newest in Hv as [Hin Hmax].
    apply list_elem_of_filter in Hin as [[Hid Hact] Hin].
    split_and!; [done..|].
    intros w Hw Hwid Hwact. apply Hmax, list_elem_of_filter. done.
  - apply head_order_by_None in Hv. intros w Hw Hwid Hwact.
    eapply (filter_nil_not_elem_of _ _ w Hv); done.
Qed.

Lemma container_latest_spec (objects : list SourceVersion)
    (oid : option ident) :
  match ConceptContainerVersionModel.get_latest_version_of objects oid with
  | Some v =>
      v ∈ objects ∧ versioned_object_id v = oid ∧ released v = true
      ∧ ∀ w, w ∈ objects → versioned_object_id w = oid →
             released w = true → created_at w ≤ created_at v
  | None =>
      ∀ w, w ∈ objects → versioned_object_id w = oid → released w ≠ true
  end.
Proof.
  unfold ConceptContainerVersionModel.get_latest_version_of.
  match goal with |- context [head ?l] => destruct (head l) as [v|] eqn:Hv end.
  - apply head_order_by_newest in Hv as [Hin Hmax].
    apply list_elem_of_filter in Hin as [[Hid Hrel] Hin].
    split_and!; [done..|].
    intros w Hw Hwid Hwrel. apply (Hmax w), list_elem_of_filter. done.
  - apply head_order_by_None in Hv. intros w Hw Hwid Hwrel.
    eapply (filter_nil_not_elem_of _ _ w Hv); done.
Qed.

(** C2.  For a plain versioned resource [get_latest_version_of] gives a
    version of the resource that is active and was created no earlier than
    any other active version of it, and gives nothing only when the
    resource has no active version.  For a container it is the same with
    [released] in place of [is_active], and versions that are not released
    do not change the answer, however late they were created. *)
Theorem get_latest_version_of_most_recent :
  (∀ (V : Type) (RV : ResourceVersion V) (objects : list V)
      (oid : option ident),
     match ResourceVersionModel.get_latest_version_of objects oid with
     | Some v =>
         v ∈ objects ∧ rv_versioned_object_id v = oid
         ∧ rv_is_active v = true
         ∧ ∀ w, w ∈ objects → rv_versioned_object_id w = oid →
                rv_is_active w = true → rv_created_at w ≤ rv_created_at v
     | None =>
         ∀ w, w ∈ objects → rv_versioned_object_id w = oid →
              rv_is_active w ≠ true
     end)
  ∧ (∀ (objects : list SourceVersion) (oid : option ident),
       match ConceptContainerVersionModel.get_latest_version_of objects oid with
       | Some v =>
           v ∈ objects ∧ versioned_object_id v = oid ∧ released v = true
           ∧ ∀ w, w ∈ objects → versioned_object_id w = oid →
                  released w = true → created_at w ≤ created_at v
       | None =>
           ∀ w, w ∈ objects → versioned_object_id w = oid →
                released w ≠ true
       end)
  ∧ (∀ (objects later : list SourceVersion) (oid : option ident),
       (∀ w, w ∈ later → released w = false) →
       ConceptContainerVersionModel.get_latest_version_of (objects ++ later) oid
       = ConceptContainerVersionModel.get_latest_version_of objects oid).
Proof.
  split_and!.
  - intros V RV objects oid. apply plain_latest_spec.
  - apply container_latest_spec.
  - intros objects later oid Hlater.
    unfold ConceptContainerVersionModel.get_latest_version_of.
    rewrite filter_app.
    replace (filter _ later) with (@nil SourceVersion);
      [by rewrite app_nil_r|].
    symmetry. induction later as [|w later IH]; [done|].
    rewrite filter_cons_False.
    + apply IH. intros u Hu. apply Hlater. by apply list_elem_of_further.
    + simpl. rewrite (Hlater w) by apply list_elem_of_here. by intros [_ ?].
Qed.

Example container_latest_run :
  ConceptContainerVersionModel.get_latest_version_of
    [version_at "v1" true 1; version_at "v2" true 2; version_at "v3" false 3]
    (Some "s1")
  = Some (version_at "v2" true 2).
Proof. reflexivity. Qed.

Example plain_latest_run :
  ResourceVersionModel.get_latest_version_of
    [version_at "v1" true 1; version_at "v2" true 2; version_at "v3" false 3]
    (Some "s1")
  = Some (version_at "v3" false 3).
Proof. reflexivity. Qed.

Lemma get_latest_version_of_most_recent_witness :
  ConceptContainerVersionModel.get_latest_version_of
    ([version_at "v1" true 1; version_at "v2" true 2]
     ++ [version_at "v3" false 3]) (Some "s1")
  = ConceptContainerVersionModel.get_latest_version_of
      [version_at "v1" true 1; version_at "v2" true 2] (Some "s1").
Proof.
  apply (proj2 (proj2 get_latest_version_of_most_recent)).
  intros w Hw. apply list_elem_of_singleton in Hw as ->. reflexivity.
Defined.

(** ** Retiring a concept *)

Lemma latest_of_snoc_newer (objects : list ConceptVersion)
    (v : ConceptVersion) (oid : ident) :
  cv_versioned_object_id v = oid → cv_is_active v = true →
  (∀ w, w ∈ objects → cv_created_at w < cv_created_at v) →
  ResourceVersionModel.get_latest_version_of (objects ++ [v]) (Some oid)
  = Some v.
Proof.
  intros Hid Hact Hnew.
  pose proof (plain_latest_spec (objects ++ [v]) (Some oid)) as Hspec.
  destruct (ResourceVersionModel.get_latest_version_of (objects ++ [v])
              (Some oid)) as [u|].
  - destruct Hspec as (Hin & _ & _ & Hmax).
    apply elem_of_app in Hin as [Hin|Hin].
    + specialize (Hmax v). simpl in Hmax.
      specialize (Hnew u Hin).
      assert (cv_created_at v ≤ cv_created_at u); [|lia].
      apply Hmax; [|by rewrite Hid|done].
      apply elem_of_app. right. apply list_elem_of_here.
    + by apply list_elem_of_singleton in Hin as ->.
  - exfalso. apply (Hspec v); simpl; [|by rewrite Hid|done].
    apply elem_of_app. right. apply list_elem_of_here.
Qed.

(** C8.  Retiring a retired concept fails and leaves the versions as they
    are.  Retiring an active concept succeeds, sets its [retired] flag,
    adds exactly one version, which is then the latest one and carries
    [retired = true], and keeps every earlier version unchanged.  [now] is
    later than the creation time of the versions stored so far. *)
Theorem retire_adds_one_retired_version
    (concept : Concept) (objects : list ConceptVersion) (now : nat) :
  (c_retired concept = true →
   Concept.retire concept objects now = (false, concept, objects))
  ∧ (c_retired concept = false →
     (∀ w, w ∈ objects → cv_created_at w < now) →
     ∃ concept' v,
       Concept.retire concept objects now = (true, concept', objects ++ [v])
       ∧ c_retired concept' = true
       ∧ c_id concept' = c_id concept
       ∧ Concept.num_versions concept' (objects ++ [v])
         = S (Concept.num_versions concept objects)
       ∧ ResourceVersionModel.get_latest_version_of (objects ++ [v])
           (Some (c_id concept)) = Some v
       ∧ cv_retired v = true
       ∧ ∀ i w, objects !! i = Some w → (objects ++ [v]) !! i = Some w).
Proof.
  unfold Concept.retire. split.
  - by intros ->.
  - intros -> Hnow. eexists _, _. split; [reflexivity|]. simpl.
    split_and!; [done|done| | |done|].
    + unfold Concept.num_versions. simpl.
      rewrite filter_app, length_app, filter_cons_True by done.
      simpl. lia.
    + apply latest_of_snoc_newer; [done|done|]. simpl. apply Hnow.
    + intros i w Hi. by apply lookup_app_l_Some.
Qed.

Example retire_run :
  Concept.retire concept1 [concept1_initial] 4
  = (true,
     {| c_id := "c1"; c_mnemonic := "concept1"; c_concept_class := "First";
        c_names := []; c_retired := true |},
     [concept1_initial;
      {| cv_id := "0000"; cv_versioned_object_id := "c1";
         cv_released := false; cv_previous_version := Some "cv1";
         cv_retired := true; cv_is_active := true; cv_created_at := 4 |}]).
Proof. reflexivity. Qed.

Lemma retire_adds_one_retired_version_witness :
  ∃ concept' v,
    Concept.retire concept1 [concept1_initial] 4
    = (true, concept', [concept1_initial] ++ [v])
    ∧ c_retired concept' = true
    ∧ c_id concept' = c_id concept1
    ∧ Concept.num_versions concept' ([concept1_initial] ++ [v])
      = S (Concept.num_versions concept1 [concept1_initial])
    ∧ ResourceVersionModel.get_latest_version_of ([concept1_initial] ++ [v])
        (Some (c_id concept1)) = Some v
    ∧ cv_retired v = true
    ∧ ∀ i w, [concept1_initial] !! i = Some w →
             ([concept1_initial] ++ [v]) !! i = Some w.
Proof.
  apply (proj2 (retire_adds_one_retired_version concept1 [concept1_initial] 4)).
  - reflexivity.
  - intros w Hw. apply list_elem_of_singleton in Hw as ->. simpl. lia.
Defined.
Lemma memory_seed_independent (m : Memory.mem) (self a : Memory.loc)
    (o ao : Memory.version_obj) (l : list ident) :
  Memory.objs m !! self = Some o →
  match Memory.o_previous_version o with
  | Some p => Some p
  | None => Memory.o_parent_version o
  end = Some a →
  a ≠ self →
  Memory.objs m !! a = Some ao →
  Memory.lists m !! Memory.o_concepts ao = Some l →
  ∃ m',
    Memory.seed_concepts self m = Some m'
    ∧ Memory.read_concepts self m' = Some l
    ∧ Memory.read_concepts a m' = Some l
    ∧ (∀ C, ∃ m2,
         Memory.update_concept_version self C m' = Some m2
         ∧ Memory.read_concepts self m2
           = Some (SourceVersion.update_concept_version_list l C)
         ∧ Memory.read_concepts a m2 = Some l)
    ∧ (∀ C, ∃ m2,
         Memory.update_concept_version a C m' = Some m2
         ∧ Memory.read_concepts a m2
           = Some (SourceVersion.update_concept_version_list l C)
         ∧ Memory.read_concepts self m2 = Some l).
Proof.
  intros Hself Hfrom Hne Ha Hl.
  assert (Hfresh : fresh (dom (Memory.lists m)) ≠ Memory.o_concepts ao).
  { intros Heq. apply (is_fresh (dom (Memory.lists m))).
    rewrite Heq. apply elem_of_dom. eauto. }
  unfold Memory.seed_concepts. rewrite Hself. simpl. rewrite Hfrom.
  rewrite Ha. simpl. rewrite Hl. simpl.
  eexists. split; [reflexivity|].
  unfold Memory.read_concepts, Memory.update_concept_version. simpl.
  split_and!.
  - by simplify_map_eq.
  - by simplify_map_eq.
  - intros C. simplify_map_eq. eexists. split; [reflexivity|]. simpl.
    by simplify_map_eq.
  - intros C. simplify_map_eq. eexists. split; [reflexivity|]. simpl.
    by simplify_map_eq.
Qed.

(** ** Storage facts *)

Lemma length_zeros (n : nat) : String.length (zeros n) = n.
Proof. induction n; simpl; congruence. Qed.

Lemma fresh_id_fresh (used : list ident) : fresh_id used ∉ used.
Proof.
  intros Hin. unfold fresh_id in Hin.
  assert (String.length (zeros (S (max_list (String.length <$> used))))
          ≤ max_list (String.length <$> used)) as Hle.
  { apply max_list_elem_of_le, list_elem_of_fmap. eauto. }
  rewrite length_zeros in Hle. lia.
Qed.

Lemma fresh_id_truthy (used : list ident) : truthy (fresh_id used) = true.
Proof. done. Qed.

Lemma seed_concepts_spec (objects : list SourceVersion)
    (self self' : SourceVersion) :
  SourceVersion.seed_concepts objects self = Ok self' →
  self' = set_concepts (concepts self') self
  ∧ match previous_version self with
    | Some i =>
        ∃ a, SourceVersion.fetch objects i = Ok a
             ∧ concepts self' = concepts a
    | None =>
        match parent_version self with
        | Some j =>
            ∃ a, SourceVersion.fetch objects j = Ok a
                 ∧ concepts self' = concepts a
        | None => concepts self' = concepts self
        end
    end.
Proof.
  unfold SourceVersion.seed_concepts, SourceVersion.seed_concepts_from.
  destruct self; simpl.
  repeat case_match; simplify_eq; intros; simplify_eq; simpl; eauto.
Qed.

Lemma resolve_previous_version_keeps (w : world) (vo : option ident)
    (e e' : error_dict) (obj obj' : SourceVersion) :
  ConceptContainerVersionModel.resolve_previous_version w vo e obj = (e', obj') →
  id obj' = id obj ∧ concepts obj' = concepts obj
  ∧ parent_version obj' = parent_version obj
  ∧ mnemonic obj' = mnemonic obj.
Proof.
  unfold ConceptContainerVersionModel.resolve_previous_version.
  repeat case_match; intros; simplify_eq; done.
Qed.

Lemma resolve_parent_version_keeps (w : world) (vo : option ident)
    (e e' : error_dict) (obj obj' : SourceVersion) :
  ConceptContainerVersionModel.resolve_parent_version w vo e obj = (e', obj') →
  id obj' = id obj ∧ concepts obj' = concepts obj
  ∧ previous_version obj' = previous_version obj
  ∧ mnemonic obj' = mnemonic obj.
Proof.
  unfold ConceptContainerVersionModel.resolve_parent_version.
  repeat case_match; intros; simplify_eq; done.
Qed.

Lemma save_version_new (obj obj' : SourceVersion) (w w' : world) :
  id obj = None → save_version obj w = (Ok obj', w') →
  ∃ r, last (db_versions w') = Some r
       ∧ db_versions w' = db_versions w ++ [r]
       ∧ db_sources w' = db_sources w
       ∧ previous_version r = previous_version obj
       ∧ parent_version r = parent_version obj
       ∧ concepts r = concepts obj
       ∧ released r = released obj
       ∧ mnemonic r = mnemonic obj.
Proof.
  unfold save_version, next_fault. intros Hid.
  destruct (faults w) as [|[] fs]; rewrite ?Hid; simpl;
    intros; simplify_eq; simpl; eexists; rewrite last_snoc; done.
Qed.

Lemma persist_changes_try_new (e e' : error_dict)
    (pr : option SourceVersion) (obj : SourceVersion) (w w' : world) :
  ConceptContainerVersionModel.persist_changes_try e pr obj w
  = (Returned e', w') →
  id obj = None →
  ∃ r, last (db_versions w') = Some r
       ∧ previous_version r = previous_version obj
       ∧ parent_version r = parent_version obj
       ∧ concepts r = concepts obj.
Proof.
  unfold ConceptContainerVersionModel.persist_changes_try,
    ConceptContainerVersionModel.persist_changes_finally.
  intros Hrun Hid.
  destruct pr as [pr|].
  - destruct (save_version (set_released false pr) w) as [[pr'|] w1];
      [|done].
    destruct (save_version obj w1) as [[obj'|] w2] eqn:Hsave; [|done].
    simplify_eq.
    destruct (save_version_new _ _ _ _ Hid Hsave)
      as (r & Hlast & _ & _ & Hp & Hq & Hc & _).
    by exists r.
  - destruct (save_version obj w) as [[obj'|] w2] eqn:Hsave; [|done].
    simplify_eq.
    destruct (save_version_new _ _ _ _ Hid Hsave)
      as (r & Hlast & _ & _ & Hp & Hq & Hc & _).
    by exists r.
Qed.

Lemma persist_changes_stores_seed (obj : SourceVersion)
    (kw : ConceptContainerVersionModel.kwargs) (w w' : world)
    (e : error_dict) :
  ConceptContainerVersionModel.persist_changes obj kw w = (Returned e, w') →
  e = ∅ →
  ConceptContainerVersionModel.kw_seed_concepts kw = true →
  id obj = None →
  ∃ r, last (db_versions w') = Some r
       ∧ match previous_version r with
         | Some i =>
             ∃ a, SourceVersion.fetch (db_versions w) i = Ok a
                  ∧ concepts r = concepts a
         | None =>
             match parent_version r with
             | Some j =>
                 ∃ a, SourceVersion.fetch (db_versions w) j = Ok a
                      ∧ concepts r = concepts a
             | None => concepts r = concepts obj
             end
         end.
Proof.
  unfold ConceptContainerVersionModel.persist_changes.
  intros Hrun -> Hseed Hid. rewrite Hseed in Hrun.
  destruct (match ConceptContainerVersionModel.kw_versioned_object kw with
            | Given o => o
            | Absent => ConceptContainerVersionModel.versioned_object obj w
            end) as [vo|]; [|simplify_eq].
  destruct (bool_decide _ && bool_decide _); [by simplify_eq|].
  destruct (ConceptContainerVersionModel.resolve_previous_version _ _ _ _)
    as [e1 obj1] eqn:Hprev.
  destruct (ConceptContainerVersionModel.resolve_parent_version _ _ _ _)
    as [e2 obj2] eqn:Hpar.
  apply resolve_previous_version_keeps in Hprev as (Hid1 & Hc1 & Hp1 & _).
  apply resolve_parent_version_keeps in Hpar as (Hid2 & Hc2 & Hp2 & _).
  simpl in *.
  destruct (decide (e2 ≠ ∅)); [by simplify_eq|].
  destruct (SourceVersion.seed_concepts (db_versions w) obj2)
    as [obj3|] eqn:Hseeded; [|done].
  apply seed_concepts_spec in Hseeded as [Hobj3 Hfrom].
  assert (∃ pr, ConceptContainerVersionModel.persist_changes_try e2 pr
                 (del_was_released obj3) w = (Returned ∅, w'))
    as [pr Htry].
  { repeat case_match; simplify_eq; eauto. }
  apply persist_changes_try_new in Htry as (r & Hlast & Hrp & Hrq & Hrc);
    [|rewrite Hobj3; simpl; congruence].
  exists r. split; [done|].
  rewrite Hrp, Hrq, Hrc. rewrite Hobj3. simpl.
  rewrite Hc2, Hc1 in Hfrom. done.
Qed.

Example persist_changes_seed_run :
  ∃ w', ConceptContainerVersionModel.persist_changes draft_v2 seeding_kwargs
          (world1 []) = (Returned ∅, w')
        ∧ concepts <$> db_versions w' = [["a"; "b"]; ["a"; "b"]]
        ∧ previous_version <$> db_versions w' = [None; Some "v1"].
Proof. eexists. split; [vm_compute; reflexivity|]. split; reflexivity. Qed.

(** C5.  [seed_concepts] takes the member list of the previous version if
    there is one, else of the parent version, else leaves the list as it is
    (empty for a new version).  A new version persisted with seeding is
    stored with that list.  The list is a copy: after seeding, a change of
    the new version's list leaves the ancestor's list as it was, and a
    change of the ancestor's list leaves the new version's. *)
Theorem seed_concepts_copies_ancestor_members :
  (∀ objects self i a,
     previous_version self = Some i →
     SourceVersion.fetch objects i = Ok a →
     SourceVersion.seed_concepts objects self
     = Ok (set_concepts (concepts a) self))
  ∧ (∀ objects self j a,
       previous_version self = None → parent_version self = Some j →
       SourceVersion.fetch objects j = Ok a →
       SourceVersion.seed_concepts objects self
       = Ok (set_concepts (concepts a) self))
  ∧ (∀ objects self,
       previous_version self = None → parent_version self = None →
       SourceVersion.seed_concepts objects self = Ok self)
  ∧ (∀ obj kw w w',
       ConceptContainerVersionModel.persist_changes obj kw w
       = (Returned ∅, w') →
       ConceptContainerVersionModel.kw_seed_concepts kw = true →
       id obj = None →
       ∃ r, last (db_versions w') = Some r
            ∧ match previous_version r with
              | Some i =>
                  ∃ a, SourceVersion.fetch (db_versions w) i = Ok a
                       ∧ concepts r = concepts a
              | None =>
                  match parent_version r with
                  | Some j =>
                      ∃ a, SourceVersion.fetch (db_versions w) j = Ok a
                           ∧ concepts r = concepts a
                  | None => concepts r = concepts obj
                  end
              end)
  ∧ (∀ (m : Memory.mem) (self a : Memory.loc) o ao (l : list ident),
       Memory.objs m !! self = Some o →
       match Memory.o_previous_version o with
       | Some p => Some p
       | None => Memory.o_parent_version o
       end = Some a →
       a ≠ self →
       Memory.objs m !! a = Some ao →
       Memory.lists m !! Memory.o_concepts ao = Some l →
       ∃ m',
         Memory.seed_concepts self m = Some m'
         ∧ Memory.read_concepts self m' = Some l
         ∧ Memory.read_concepts a m' = Some l
         ∧ (∀ C, ∃ m2,
              Memory.update_concept_version self C m' = Some m2
              ∧ Memory.read_concepts self m2
                = Some (SourceVersion.update_concept_version_list l C)
              ∧ Memory.read_concepts a m2 = Some l)
         ∧ (∀ C, ∃ m2,
              Memory.update_concept_version a C m' = Some m2
              ∧ Memory.read_concepts a m2
                = Some (SourceVersion.update_concept_version_list l C)
              ∧ Memory.read_concepts self m2 = Some l)).
Proof.
  split_and!.
  - intros objects self i a Hp Ha.
    unfold SourceVersion.seed_concepts, SourceVersion.seed_concepts_from.
    by rewrite Hp, Ha.
  - intros objects self j a Hp Hq Ha.
    unfold SourceVersion.seed_concepts, SourceVersion.seed_concepts_from.
    by rewrite Hp, Hq, Ha.
  - intros objects self Hp Hq.
    unfold SourceVersion.seed_concepts, SourceVersion.seed_concepts_from.
    by rewrite Hp, Hq.
  - intros obj kw w w' Hrun Hseed Hid.
    by eapply persist_changes_stores_seed.
  - apply memory_seed_independent.
Qed.

Lemma seed_concepts_copies_ancestor_members_witness :
  ∃ r, last
         (db_versions
            (snd (ConceptContainerVersionModel.persist_changes draft_v2
                    seeding_kwargs (world1 [])))) = Some r
       ∧ match previous_version r with
         | Some i =>
             ∃ a, SourceVersion.fetch (db_versions (world1 [])) i = Ok a
                  ∧ concepts r = concepts a
         | None =>
             match parent_version r with
             | Some j =>
                 ∃ a, SourceVersion.fetch (db_versions (world1 [])) j = Ok a
                      ∧ concepts r = concepts a
             | None => concepts r = concepts draft_v2
             end
         end.
Proof.
  apply (proj1 (proj2 (proj2 (proj2 seed_concepts_copies_ancestor_members)))
           draft_v2 seeding_kwargs (world1 [])).
  - vm_compute. reflexivity.
  - reflexivity.
  - reflexivity.
Defined.

(** ** Creating a container *)

Lemma replace_by_id_snoc (l : list SourceVersion) (x y : SourceVersion)
    (i : ident) :
  i ∉ version_ids l → id x = Some i →
  (λ r, if decide (id r = Some i) then y else r) <$> (l ++ [x]) = l ++ [y].
Proof.
  intros Hfresh Hx. rewrite fmap_app. simpl. rewrite decide_True by done.
  f_equal. induction l as [|r l IH]; [done|]. simpl.
  rewrite decide_False.
  - f_equal. apply IH. intros Hin. apply Hfresh.
    unfold version_ids in *. simpl. destruct (id r); [|done].
    by apply list_elem_of_further.
  - intros Hr. apply Hfresh. unfold version_ids. simpl. rewrite Hr.
    apply list_elem_of_here.
Qed.

Lemma version_ids_snoc (l : list SourceVersion) (x : SourceVersion) (i : ident) :
  id x = Some i → version_ids (l ++ [x]) = version_ids l ++ [i].
Proof.
  intros Hx. unfold version_ids. rewrite omap_app. simpl. by rewrite Hx.
Qed.

Lemma save_initial_version (v v1 v2 : SourceVersion) (w w1 w2 : world) :
  id v = None →
  save_version v w = (Ok v1, w1) →
  save_version (set_mnemonic (default "" (id v1)) v1) w1 = (Ok v2, w2) →
  let vid := fresh_id (version_ids (db_versions w)) in
  db_versions w2
  = db_versions w
    ++ [stored (set_mnemonic vid (set_created_at (clock w) (set_id (Some vid) v)))]
  ∧ db_sources w2 = db_sources w.
Proof.
  intros Hid Hs1 Hs2 vid.
  unfold save_version, next_fault in Hs1.
  destruct (faults w) as [|[] fs] eqn:Hf; rewrite ?Hid in Hs1; simpl in Hs1;
    simplify_eq.
  - unfold save_version, next_fault in Hs2. simpl in Hs2. rewrite Hf in Hs2.
    simpl in Hs2.
    rewrite bool_decide_eq_true_2 in Hs2.
    2:{ erewrite version_ids_snoc by done. apply elem_of_app. right.
        apply list_elem_of_here. }
    simplify_eq. simpl. split; [|done].
    apply replace_by_id_snoc; [apply fresh_id_fresh|done].
  - unfold save_version, next_fault in Hs2. simpl in Hs2.
    destruct fs as [|[] fs]; simpl in Hs2; [| done |].
    + rewrite bool_decide_eq_true_2 in Hs2.
      2:{ erewrite version_ids_snoc by done. apply elem_of_app. right.
          apply list_elem_of_here. }
      simplify_eq. simpl. split; [|done].
      apply replace_by_id_snoc; [apply fresh_id_fresh|done].
    + rewrite bool_decide_eq_true_2 in Hs2.
      2:{ erewrite version_ids_snoc by done. apply elem_of_app. right.
          apply list_elem_of_here. }
      simplify_eq. simpl. split; [|done].
      apply replace_by_id_snoc; [apply fresh_id_fresh|done].
Qed.

Lemma save_source_ok (obj obj1 : Source) (w w1 : world) :
  save_source obj w = (Ok obj1, w1) →
  obj1 ∈ db_sources w1
  ∧ db_versions w1 = db_versions w
  ∧ is_Some (src_id obj1)
  ∧ obj1 = set_src_id (src_id obj1) obj.
Proof.
  unfold save_source, next_fault.
  assert (∀ l : list Source, obj1 ∈ l ++ [obj1]) as Hlast.
  { intros l. apply elem_of_app. right. apply list_elem_of_here. }
  destruct obj as [[i|] ? ? ? ? ? ? ? ? ? ? ? ?].
  - destruct (faults w) as [|[] fs]; simpl; intros Hrun; simplify_eq; simpl.
    all: split_and!; [|done|eauto|done].
    all: case_bool_decide as Hin; [|apply Hlast].
    all: apply list_elem_of_fmap.
    all: apply list_elem_of_omap in Hin as (r & Hr & Hid).
    all: exists r; by rewrite decide_True.
  - destruct (faults w) as [|[] fs]; simpl; intros Hrun; simplify_eq; simpl.
    all: split_and!; [apply Hlast|done|eauto|done].
Qed.

(** C6.  A [persist_new] of a container that returns no error has stored
    exactly one more version.  Its snapshot fields are those of the saved
    source, it is released, it points to the source, and its mnemonic is
    the id that the store gave it. *)
Theorem persist_new_creates_initial_version
    (full_clean : list Source → Source → error_dict)
    (obj : Source) (kw : ConceptContainerModel.kwargs) (w w' : world)
    (e : error_dict) :
  ConceptContainerModel.persist_new full_clean obj kw w = (Returned e, w') →
  e = ∅ →
  ∃ saved v vid,
    saved ∈ db_sources w'
    ∧ saved
      = set_src_id (src_id saved)
          (set_src_owner (ConceptContainerModel.owner kw)
             (set_src_parent (ConceptContainerModel.parent_resource kw) obj))
    ∧ is_Some (src_id saved)
    ∧ db_versions w' = db_versions w ++ [v]
    ∧ id v = Some vid
    ∧ (vid ∉ version_ids (db_versions w))
    ∧ mnemonic v = vid
    ∧ released v = true
    ∧ versioned_object_id v = src_id saved
    ∧ name v = src_name saved
    ∧ full_name v = src_full_name saved
    ∧ source_type v = src_source_type saved
    ∧ public_access v = src_public_access saved
    ∧ default_locale v = src_default_locale saved
    ∧ supported_locales v = src_supported_locales saved
    ∧ website v = src_website saved
    ∧ description v = src_description saved.
Proof.
  unfold ConceptContainerModel.persist_new,
    ConceptContainerModel.persist_new_finally.
  intros Hrun ->.
  destruct (ConceptContainerModel.parent_resource kw) as [p|];
    destruct (ConceptContainerModel.owner kw) as [u|];
    try (rewrite decide_True in Hrun by (by apply insert_non_empty);
         by simplify_eq).
  rewrite decide_False in Hrun by (intros Hne; by apply Hne).
  destruct (decide (_ ≠ ∅)) as [Hne|_];
    [injection Hrun as He _; by destruct Hne|].
  destruct (save_source _ w) as [[obj1|] w1] eqn:Hsrc.
  2:{ repeat case_match; simplify_eq. }
  apply save_source_ok in Hsrc as (Hin & Hvers & Hsome & Hobj1).
  destruct (SourceVersion.for_base_object obj1 "INITIAL" None None false)
    as [version|] eqn:Hfor.
  2:{ repeat case_match; simplify_eq. }
  destruct (save_version (set_released true version) w1) as [[v1|] w2] eqn:Hs1.
  2:{ repeat case_match; simplify_eq. }
  destruct (save_version _ w2) as [[v2|] w3] eqn:Hs2.
  2:{ repeat case_match; simplify_eq. }
  simplify_eq.
  unfold SourceVersion.for_base_object in Hfor.
  destruct Hsome as [sid Hsid]. rewrite Hsid in Hfor.
  destruct (truthy sid); [|done]. simplify_eq.
  match type of Hs1 with
  | save_version ?v _ = _ =>
      destruct (save_initial_version v _ _ _ _ _ eq_refl Hs1 Hs2)
        as [Hdb Hsources]
  end.
  eexists obj1, _, _. rewrite Hdb, Hsources, Hvers.
  split_and!; try done.
  apply fresh_id_fresh.
Qed.

Example persist_new_run :
  ∃ w', ConceptContainerModel.persist_new full_clean_unique source2_draft
          owner_and_parent (world1 []) = (Returned ∅, w')
        ∧ src_id <$> db_sources w' = [Some "s1"; Some "000"]
        ∧ mnemonic <$> db_versions w' = ["v1"; "000"]
        ∧ id <$> db_versions w' = [Some "v1"; Some "000"].
Proof. eexists. split; [vm_compute; reflexivity|]. split_and!; reflexivity. Qed.

Lemma persist_new_creates_initial_version_witness :
  ∃ saved v vid,
    saved ∈ db_sources
              (snd (ConceptContainerModel.persist_new full_clean_unique
                      source2_draft owner_and_parent (world1 [])))
    ∧ saved
      = set_src_id (src_id saved)
          (set_src_owner (ConceptContainerModel.owner owner_and_parent)
             (set_src_parent
                (ConceptContainerModel.parent_resource owner_and_parent)
                source2_draft))
    ∧ is_Some (src_id saved)
    ∧ db_versions
        (snd (ConceptContainerModel.persist_new full_clean_unique
                source2_draft owner_and_parent (world1 [])))
      = db_versions (world1 []) ++ [v]
    ∧ id v = Some vid
    ∧ (vid ∉ version_ids (db_versions (world1 [])))
    ∧ mnemonic v = vid
    ∧ released v = true
    ∧ versioned_object_id v = src_id saved
    ∧ name v = src_name saved
    ∧ full_name v = src_full_name saved
    ∧ source_type v = src_source_type saved
    ∧ public_access v = src_public_access saved
    ∧ default_locale v = src_default_locale saved
    ∧ supported_locales v = src_supported_locales saved
    ∧ website v = src_website saved
    ∧ description v = src_description saved.
Proof.
  apply (persist_new_creates_initial_version full_clean_unique source2_draft
           owner_and_parent (world1 []) _ ∅).
  - vm_compute. reflexivity.
  - reflexivity.
Defined.

(** X2.  With an argument missing, [persist_new] returns one key for each
    missing argument, [parent] or [owner], and no other key, and writes
    nothing. *)
Lemma persist_new_missing_argument
    (full_clean : list Source → Source → error_dict)
    (obj : Source) (kw : ConceptContainerModel.kwargs) (w : world) :
  ConceptContainerModel.parent_resource kw = None
  ∨ ConceptContainerModel.owner kw = None →
  ∃ e, ConceptContainerModel.persist_new full_clean obj kw w = (Returned e, w)
       ∧ ("parent" ∈ dom e ↔ ConceptContainerModel.parent_resource kw = None)
       ∧ ("owner" ∈ dom e ↔ ConceptContainerModel.owner kw = None)
       ∧ ∀ k, k ∈ dom e → k = "parent" ∨ k = "owner".
Proof.
  unfold ConceptContainerModel.persist_new. intros Hmissing.
  destruct (ConceptContainerModel.parent_resource kw) as [p|];
    destruct (ConceptContainerModel.owner kw) as [u|];
    [by destruct Hmissing|..].
  all: rewrite decide_True by (by apply insert_non_empty).
  all: eexists; split; [reflexivity|].
  all: rewrite ?dom_insert_L, dom_empty_L; set_unfold; intuition congruence.
Qed.

(** X5.  Once the arguments and the validation are in order, [persist_new]
    never returns an error dictionary with an entry: a failing save leaves
    the function as an exception. *)
Lemma persist_new_never_reports_save_failure
    (full_clean : list Source → Source → error_dict)
    (obj : Source) (kw : ConceptContainerModel.kwargs) (w w' : world)
    (out : outcome) :
  is_Some (ConceptContainerModel.parent_resource kw) →
  is_Some (ConceptContainerModel.owner kw) →
  full_clean (db_sources w)
    (set_src_owner (ConceptContainerModel.owner kw)
       (set_src_parent (ConceptContainerModel.parent_resource kw) obj)) = ∅ →
  ConceptContainerModel.persist_new full_clean obj kw w = (out, w') →
  out = Raised ∨ out = Returned ∅.
Proof.
  unfold ConceptContainerModel.persist_new,
    ConceptContainerModel.persist_new_finally.
  intros [p ->] [u ->] Hclean. rewrite Hclean.
  rewrite decide_False by (intros Hne; by apply Hne).
  rewrite decide_False by (intros Hne; apply Hne; by rewrite (left_id_L ∅ (∪))).
  rewrite (left_id_L ∅ (∪)).
  repeat case_match; intros; simplify_eq; eauto.
Qed.

(** C1.  What the code does when the save sequence fails after the source
    was saved: with the first two writes going through and the second
    [version.save()] failing, the call ends in an exception, no dictionary
    with [non_field_errors] comes back, and nothing is rolled back: the
    new source and its version, still named [INITIAL], stay in the
    store. *)
Theorem persist_new_failed_save_raises :
  ∃ w',
    ConceptContainerModel.persist_new full_clean_unique source2_draft
      owner_and_parent (world1 [false; false; true]) = (Raised, w')
    ∧ src_mnemonic <$> db_sources w' = ["source1"; "source2"]
    ∧ (λ v, (mnemonic v, versioned_object_id v, released v))
        <$> db_versions w'
      = [("v1", Some "s1", true); ("INITIAL", Some "000", true)].
Proof. eexists. split; [vm_compute; reflexivity|]. split; reflexivity. Qed.

(** ** Changing a container version *)

Lemma resolve_previous_version_keys (w : world) (vo : option ident)
    (e e' : error_dict) (obj obj' : SourceVersion) :
  ConceptContainerVersionModel.resolve_previous_version w vo e obj = (e', obj') →
  e' = e ∨ ∃ x, e' = <["previousVersion" := x]> e.
Proof.
  unfold ConceptContainerVersionModel.resolve_previous_version.
  repeat case_match; intros; simplify_eq; eauto.
Qed.

Lemma resolve_parent_version_keys (w : world) (vo : option ident)
    (e e' : error_dict) (obj obj' : SourceVersion) :
  ConceptContainerVersionModel.resolve_parent_version w vo e obj = (e', obj') →
  e' = e ∨ ∃ x, e' = <["parentVersion" := x]> e.
Proof.
  unfold ConceptContainerVersionModel.resolve_parent_version.
  repeat case_match; intros; simplify_eq; eauto.
Qed.

Lemma persist_changes_try_returns (e e' : error_dict)
    (pr : option SourceVersion) (obj : SourceVersion) (w w' : world) :
  ConceptContainerVersionModel.persist_changes_try e pr obj w
  = (Returned e', w') → e' = e.
Proof.
  unfold ConceptContainerVersionModel.persist_changes_try,
    ConceptContainerVersionModel.persist_changes_finally.
  repeat case_match; intros; simplify_eq; done.
Qed.

(** With a versioned object at hand, no dictionary that [persist_changes]
    returns has the key [non_field_errors]. *)
Lemma persist_changes_never_reports_save_failure (obj : SourceVersion)
    (kw : ConceptContainerVersionModel.kwargs) (w w' : world)
    (e : error_dict) :
  is_Some (match ConceptContainerVersionModel.kw_versioned_object kw with
           | Given o => o
           | Absent => ConceptContainerVersionModel.versioned_object obj w
           end) →
  ConceptContainerVersionModel.persist_changes obj kw w = (Returned e, w') →
  e !! "non_field_errors" = None.
Proof.
  unfold ConceptContainerVersionModel.persist_changes.
  intros [vo ->].
  destruct (bool_decide _ && bool_decide _); [intros [=]|].
  destruct (ConceptContainerVersionModel.resolve_previous_version _ _ _ _)
    as [e1 obj1] eqn:Hprev.
  destruct (ConceptContainerVersionModel.resolve_parent_version _ _ _ _)
    as [e2 obj2] eqn:Hpar.
  apply resolve_previous_version_keys in Hprev.
  apply resolve_parent_version_keys in Hpar.
  assert (e2 !! "non_field_errors" = None) as He2.
  { destruct Hprev as [->|[x ->]]; destruct Hpar as [->|[y ->]];
      by rewrite ?lookup_insert_ne. }
  destruct (decide (e2 ≠ ∅)); [by intros [= <- _]|].
  repeat case_match; try done.
  all: by intros ->%persist_changes_try_returns.
Qed.

Example persist_changes_release_run :
  ∃ w', ConceptContainerVersionModel.persist_changes release_v2 no_kwargs
          (world2 []) = (Returned ∅, w')
        ∧ (λ v, (mnemonic v, released v)) <$> db_versions w'
          = [("v1", false); ("v2", true)].
Proof. eexists. split; [vm_compute; reflexivity|]. reflexivity. Qed.

(** C3.  What the code does when the save of the newly released version
    fails: the write that takes the flag from the prior release goes
    through, the save of the new version fails, the prior release gets its
    flag back, and the call ends in the exception; no dictionary with
    [non_field_errors] comes back. *)
Theorem persist_changes_failed_release_raises :
  ConceptContainerVersionModel.persist_changes release_v2 no_kwargs
    (world2 [false; true])
  = (Raised,
     {| db_sources := db_sources (world2 []);
        db_versions := db_versions (world2 []);
        clock := 3; faults := [] |}).
Proof. vm_compute. reflexivity. Qed.

(** C7.  What the code does with a new mnemonic that is taken: the lookup
    that guards the change is made with the mnemonic the object still has,
    not with the one supplied.  A new version labelled [v2] that is given
    the mnemonic [v1] of a stored version of the same source gets no error
    under [mnemonic]: the code goes on to save it, and the source then has
    two versions named [v1]; where the store turns the write down, the
    call ends in the exception. *)
Theorem persist_changes_accepts_taken_mnemonic :
  (∃ w',
     ConceptContainerVersionModel.persist_changes draft_v2_plain
       (rename_kwargs "v1") (world1 []) = (Returned ∅, w')
     ∧ (λ v, (versioned_object_id v, mnemonic v)) <$> db_versions w'
       = [(Some "s1", "v1"); (Some "s1", "v1")])
  ∧ ConceptContainerVersionModel.persist_changes draft_v2_plain
      (rename_kwargs "v1") (world1 [true]) = (Raised, world1 []).
Proof.
  split.
  - eexists. split; [vm_compute; reflexivity|]. reflexivity.
  - vm_compute. reflexivity.
Qed.

(** The same lookup stops a stored version that asks for a mnemonic no
    version has: its own record is found, and the formatting of the message
    raises before any return. *)
Example persist_changes_rename_of_stored_version_raises :
  ConceptContainerVersionModel.persist_changes stored_v2
    (rename_kwargs "v9") (world2 []) = (Raised, world2 []).
Proof. vm_compute. reflexivity. Qed.

(** X9.  Once a versioned object is at hand and the call is past the
    mnemonic guard (no new mnemonic, or no stored version of the object
    under the mnemonic the version still has), a non-empty
    [_previous_version_mnemonic] that names no stored version of the
    object, or that is the mnemonic the version is to be saved under, is
    reported under [previousVersion], and nothing is written. *)
Lemma persist_changes_rejects_previous_version (obj : SourceVersion)
    (kw : ConceptContainerVersionModel.kwargs) (w : world) (vo : Source)
    (m : string) :
  let mnemonic' :=
    match ConceptContainerVersionModel.kw_mnemonic kw with
    | Given x => x
    | Absent => mnemonic obj
    end in
  match ConceptContainerVersionModel.kw_versioned_object kw with
  | Given o => o
  | Absent => ConceptContainerVersionModel.versioned_object obj w
  end = Some vo →
  mnemonic' = mnemonic obj
  ∨ ConceptContainerVersionModel.by_mnemonic w (src_id vo) (mnemonic obj) = [] →
  _previous_version_mnemonic obj = Some m → m ≠ "" →
  ConceptContainerVersionModel.by_mnemonic w (src_id vo) m = []
  ∨ mnemonic' = m →
  ∃ e, ConceptContainerVersionModel.persist_changes obj kw w = (Returned e, w)
       ∧ is_Some (e !! "previousVersion").
Proof.
  intros mnemonic' Hvo Hguard Hm Hne Hbad.
  unfold ConceptContainerVersionModel.persist_changes.
  rewrite Hvo. simpl. fold mnemonic'.
  assert (bool_decide (mnemonic' ≠ mnemonic obj)
          && bool_decide
               (ConceptContainerVersionModel.by_mnemonic w (src_id vo)
                  (mnemonic obj) ≠ []) = false) as ->.
  { destruct Hguard as [Heq|Hnone].
    - by rewrite bool_decide_eq_false_2 by (intros Hneq; by apply Hneq).
    - rewrite (bool_decide_eq_false_2 (_ ≠ []))
        by (intros Hneq; by apply Hneq).
      apply andb_false_r. }
  clear Hguard. clearbody mnemonic'.
  destruct (ConceptContainerVersionModel.resolve_previous_version _ _ _ _)
    as [e1 obj1] eqn:Hprev.
  assert (is_Some (e1 !! "previousVersion")) as He1.
  { revert Hprev.
    unfold ConceptContainerVersionModel.resolve_previous_version. simpl.
    rewrite Hm. unfold truthy. rewrite bool_decide_eq_true_2 by done.
    destruct Hbad as [->| ->].
    - intros [= <- _]. rewrite lookup_insert_eq. eauto.
    - destruct (ConceptContainerVersionModel.by_mnemonic _ _ _).
      + intros [= <- _]. rewrite lookup_insert_eq. eauto.
      + rewrite decide_True by done.
        intros [= <- _]. rewrite lookup_insert_eq. eauto. }
  destruct (ConceptContainerVersionModel.resolve_parent_version _ _ _ _)
    as [e2 obj2] eqn:Hpar.
  apply resolve_parent_version_keys in Hpar.
  assert (is_Some (e2 !! "previousVersion")) as He2.
  { destruct Hpar as [->|[y ->]]; [done|]. by rewrite lookup_insert_ne. }
  rewrite decide_True; [eauto|].
  intros ->. rewrite lookup_empty in He2. by destruct He2.
Qed.

(** X10.  The same for the parent version: past the mnemonic guard, a
    non-empty [_parent_version_mnemonic] that names no stored version of
    the object, or that is the mnemonic the version is to be saved under,
    is reported under [parentVersion], and nothing is written. *)
Lemma persist_changes_rejects_parent_version (obj : SourceVersion)
    (kw : ConceptContainerVersionModel.kwargs) (w : world) (vo : Source)
    (m : string) :
  let mnemonic' :=
    match ConceptContainerVersionModel.kw_mnemonic kw with
    | Given x => x
    | Absent => mnemonic obj
    end in
  match ConceptContainerVersionModel.kw_versioned_object kw with
  | Given o => o
  | Absent => ConceptContainerVersionModel.versioned_object obj w
  end = Some vo →
  mnemonic' = mnemonic obj
  ∨ ConceptContainerVersionModel.by_mnemonic w (src_id vo) (mnemonic obj) = [] →
  _parent_version_mnemonic obj = Some m → m ≠ "" →
  ConceptContainerVersionModel.by_mnemonic w (src_id vo) m = []
  ∨ mnemonic' = m →
  ∃ e, ConceptContainerVersionModel.persist_changes obj kw w = (Returned e, w)
       ∧ is_Some (e !! "parentVersion").
Proof.
  intros mnemonic' Hvo Hguard Hm Hne Hbad.
  unfold ConceptContainerVersionModel.persist_changes.
  rewrite Hvo. simpl. fold mnemonic'.
  assert (bool_decide (mnemonic' ≠ mnemonic obj)
          && bool_decide
               (ConceptContainerVersionModel.by_mnemonic w (src_id vo)
                  (mnemonic obj) ≠ []) = false) as ->.
  { destruct Hguard as [Heq|Hnone].
    - by rewrite bool_decide_eq_false_2 by (intros Hneq; by apply Hneq).
    - rewrite (bool_decide_eq_false_2 (_ ≠ []))
        by (intros Hneq; by apply Hneq).
      apply andb_false_r. }
  clear Hguard. clearbody mnemonic'.
  destruct (ConceptContainerVersionModel.resolve_previous_version _ _ _ _)
    as [e1 obj1] eqn:Hprev.
  assert (_parent_version_mnemonic obj1 = Some m ∧ mnemonic obj1 = mnemonic')
    as [Hm1 Hmn1].
  { revert Hprev.
    unfold ConceptContainerVersionModel.resolve_previous_version.
    repeat case_match; intros; by simplify_eq. }
  destruct (ConceptContainerVersionModel.resolve_parent_version _ _ _ _)
    as [e2 obj2] eqn:Hpar.
  assert (is_Some (e2 !! "parentVersion")) as He2.
  { revert Hpar.
    unfold ConceptContainerVersionModel.resolve_parent_version.
    rewrite Hm1, Hmn1. unfold truthy. rewrite bool_decide_eq_true_2 by done.
    destruct Hbad as [->| ->].
    - intros [= <- _]. rewrite lookup_insert_eq. eauto.
    - destruct (ConceptContainerVersionModel.by_mnemonic _ _ _).
      + intros [= <- _]. rewrite lookup_insert_eq. eauto.
      + rewrite decide_True by done.
        intros [= <- _]. rewrite lookup_insert_eq. eauto. }
  rewrite decide_True; [eauto|].
  intros ->. rewrite lookup_empty in He2. by destruct He2.
Qed.

(** * Further properties *)

(** ** Writes that go through *)

Lemma save_source_succeeds (obj : Source) (w : world) :
  faults w !! 0 ≠ Some true →
  ∃ obj1 w1,
    save_source obj w = (Ok obj1, w1)
    ∧ faults w1 = tail (faults w)
    ∧ clock w1 = clock w.
Proof.
  unfold save_source, next_fault. intros Hok.
  destruct (faults w) as [|[] fs] eqn:Hf; simpl in *; [|done|].
  all: destruct (src_id obj); simpl; eexists _, _.
  all: split; [reflexivity|]; simpl; by rewrite ?Hf.
Qed.

Lemma save_version_succeeds (obj : SourceVersion) (w : world) :
  faults w !! 0 ≠ Some true →
  ∃ obj1 w1,
    save_version obj w = (Ok obj1, w1)
    ∧ faults w1 = tail (faults w).
Proof.
  unfold save_version, next_fault. intros Hok.
  destruct (faults w) as [|[] fs] eqn:Hf; simpl in *; [|done|].
  all: destruct (id obj); [case_bool_decide|]; simpl; eexists _, _.
  all: split; [reflexivity|]; simpl; by rewrite ?Hf.
Qed.

Lemma save_source_id (obj obj1 : Source) (w w1 : world) :
  save_source obj w = (Ok obj1, w1) →
  src_id obj1 = src_id obj
  ∨ (src_id obj = None
     ∧ src_id obj1 = Some (fresh_id (source_ids (db_sources w)))).
Proof.
  unfold save_source, next_fault.
  destruct (faults w) as [|[] fs]; simpl; destruct (src_id obj) eqn:Hi;
    intros; simplify_eq; simpl; eauto.
Qed.

Lemma save_source_clock (obj obj1 : Source) (w w1 : world) :
  save_source obj w = (Ok obj1, w1) → clock w1 = clock w.
Proof.
  unfold save_source, next_fault.
  destruct (faults w) as [|[] fs]; simpl; destruct (src_id obj);
    intros; by simplify_eq.
Qed.

Lemma container_latest_of_snoc_newer (objects : list SourceVersion)
    (v : SourceVersion) (oid : option ident) :
  versioned_object_id v = oid → released v = true →
  (∀ r, r ∈ objects → versioned_object_id r = oid → released r = true →
        created_at r < created_at v) →
  ConceptContainerVersionModel.get_latest_version_of (objects ++ [v]) oid
  = Some v.
Proof.
  intros Hid Hrel Hnew.
  pose proof (container_latest_spec (objects ++ [v]) oid) as Hspec.
  destruct (ConceptContainerVersionModel.get_latest_version_of
              (objects ++ [v]) oid) as [u|].
  - destruct Hspec as (Hin & Huid & Hurel & Hmax).
    apply elem_of_app in Hin as [Hin|Hin].
    + specialize (Hnew u Hin Huid Hurel).
      assert (created_at v ≤ created_at u); [|lia].
      apply Hmax; [|done|done].
      apply elem_of_app. right. apply list_elem_of_here.
    + by apply list_elem_of_singleton in Hin as ->.
  - exfalso. apply (Hspec v); [|done|done].
    apply elem_of_app. right. apply list_elem_of_here.
Qed.

(** ** Creating a container, continued *)

(** X1.  [persist_new] of a container goes through when both arguments are
    given, validation finds nothing and the three writes succeed.  The
    saved source then has one version more than the store held for its id,
    and [get_latest_version_of] gives that version, provided the released
    versions already stored for the id are older than the clock. *)
Theorem persist_new_then_latest_version
    (full_clean : list Source → Source → error_dict)
    (obj : Source) (kw : ConceptContainerModel.kwargs) (w : world) :
  is_Some (ConceptContainerModel.parent_resource kw) →
  is_Some (ConceptContainerModel.owner kw) →
  full_clean (db_sources w)
    (set_src_owner (ConceptContainerModel.owner kw)
       (set_src_parent (ConceptContainerModel.parent_resource kw) obj)) = ∅ →
  (∀ i, i < 3 → faults w !! i ≠ Some true) →
  (∀ i, src_id obj = Some i → i ≠ "") →
  ∃ w' saved v,
    ConceptContainerModel.persist_new full_clean obj kw w = (Returned ∅, w')
    ∧ saved ∈ db_sources w'
    ∧ db_versions w' = db_versions w ++ [v]
    ∧ versioned_object_id v = src_id saved
    ∧ ConceptContainerModel.num_versions saved w'
      = S (length (filter (λ r, versioned_object_id r = src_id saved)
                     (db_versions w)))
    ∧ ((∀ r, r ∈ db_versions w → versioned_object_id r = src_id saved →
             released r = true → created_at r < clock w) →
       ConceptContainerVersionModel.get_latest_version_of (db_versions w')
         (src_id saved) = Some v).
Proof.
  intros [p Hp] [u Hu] Hclean Hfaults Hid.
  unfold ConceptContainerModel.persist_new,
    ConceptContainerModel.persist_new_finally.
  rewrite Hp, Hu in *.
  rewrite decide_False by (intros Hne; by apply Hne).
  rewrite Hclean.
  rewrite decide_False by (intros Hne; apply Hne; by rewrite (left_id_L ∅ (∪))).
  rewrite (left_id_L ∅ (∪)).
  destruct (save_source_succeeds
              (set_src_owner (Some u) (set_src_parent (Some p) obj)) w)
    as (obj1 & w1 & Hsrc & Hf1 & Hc1); [apply Hfaults; lia|].
  rewrite Hsrc.
  destruct (save_source_ok _ _ _ _ Hsrc) as (Hin & Hvers & [sid Hsid] & Hobj1).
  assert (truthy sid = true) as Htruthy.
  { unfold truthy. apply bool_decide_eq_true_2.
    destruct (save_source_id _ _ _ _ Hsrc) as [Hsame|[Hnone Hnew]].
    - apply Hid. simpl in Hsame. congruence.
    - rewrite Hsid in Hnew. by injection Hnew as ->. }
  unfold SourceVersion.for_base_object. rewrite Hsid, Htruthy.
  match goal with
  | |- context [save_version ?v w1] =>
      destruct (save_version_succeeds v w1) as (v1 & w2 & Hs1 & Hf2)
  end.
  { rewrite Hf1. rewrite lookup_tail. apply Hfaults. lia. }
  rewrite Hs1.
  destruct (save_version_succeeds
              (set_mnemonic (default "" (id v1)) v1) w2)
    as (v2 & w3 & Hs2 & Hf3).
  { rewrite Hf2, Hf1, !lookup_tail. apply Hfaults. lia. }
  rewrite Hs2.
  match type of Hs1 with
  | save_version ?v _ = _ =>
      destruct (save_initial_version v _ _ _ _ _ eq_refl Hs1 Hs2)
        as [Hdb Hsources]
  end.
  eexists w3, obj1, _. split; [reflexivity|].
  rewrite Hdb, Hsources, Hvers. split_and!; [done|done|by symmetry| |].
  - unfold ConceptContainerModel.num_versions. rewrite Hdb, Hvers.
    rewrite filter_app, length_app, filter_cons_True by (by symmetry).
    simpl. lia.
  - intros Hold. apply container_latest_of_snoc_newer; [by symmetry|done|].
    simpl. rewrite Hc1. done.
Qed.

Lemma persist_new_then_latest_version_witness :
  ∃ w' saved v,
    ConceptContainerModel.persist_new full_clean_unique source2_draft
      owner_and_parent (world1 []) = (Returned ∅, w')
    ∧ saved ∈ db_sources w'
    ∧ db_versions w' = db_versions (world1 []) ++ [v]
    ∧ versioned_object_id v = src_id saved
    ∧ ConceptContainerModel.num_versions saved w'
      = S (length (filter (λ r, versioned_object_id r = src_id saved)
                     (db_versions (world1 []))))
    ∧ ((∀ r, r ∈ db_versions (world1 []) →
             versioned_object_id r = src_id saved →
             released r = true → created_at r < clock (world1 [])) →
       ConceptContainerVersionModel.get_latest_version_of (db_versions w')
         (src_id saved) = Some v).
Proof.
  apply (persist_new_then_latest_version full_clean_unique source2_draft
           owner_and_parent (world1 [])).
  - simpl. eauto.
  - simpl. eauto.
  - vm_compute. reflexivity.
  - intros i _. simpl. by rewrite lookup_nil.
  - intros i. simpl. discriminate.
Defined.

(** X3.  Whenever [persist_new] of a container returns an error dictionary
    with an entry, nothing was written, and the dictionary is either the
    report of the missing arguments or the one of the validation. *)
Theorem persist_new_error_return_writes_nothing
    (full_clean : list Source → Source → error_dict)
    (obj : Source) (kw : ConceptContainerModel.kwargs) (w w' : world)
    (e : error_dict) :
  ConceptContainerModel.persist_new full_clean obj kw w = (Returned e, w') →
  e ≠ ∅ →
  w' = w
  ∧ (ConceptContainerModel.parent_resource kw = None
     ∨ ConceptContainerModel.owner kw = None
     ∨ e = full_clean (db_sources w)
             (set_src_owner (ConceptContainerModel.owner kw)
                (set_src_parent (ConceptContainerModel.parent_resource kw)
                   obj))).
Proof.
  unfold ConceptContainerModel.persist_new,
    ConceptContainerModel.persist_new_finally.
  intros Hrun Hne.
  destruct (ConceptContainerModel.parent_resource kw) as [p|];
    destruct (ConceptContainerModel.owner kw) as [u|];
    try (rewrite decide_True in Hrun by (by apply insert_non_empty);
         simplify_eq; by eauto).
  rewrite decide_False in Hrun by (intros Hn; by apply Hn).
  rewrite (right_id_L ∅ (∪)) in Hrun.
  destruct (decide (_ ≠ ∅)) as [Herr|Hok]; [simplify_eq; by eauto|].
  repeat case_match; simplify_eq.
  by destruct Hok.
Qed.

Lemma persist_new_error_return_writes_nothing_witness :
  snd (ConceptContainerModel.persist_new full_clean_unique source2_draft
         no_owner (world1 [])) = world1 []
  ∧ (ConceptContainerModel.parent_resource no_owner = None
     ∨ ConceptContainerModel.owner no_owner = None
     ∨ {[ "owner" := Msg "Source owner cannot be None." ]}
       = full_clean_unique (db_sources (world1 []))
           (set_src_owner (ConceptContainerModel.owner no_owner)
              (set_src_parent (ConceptContainerModel.parent_resource no_owner)
                 source2_draft))).
Proof.
  apply (persist_new_error_return_writes_nothing full_clean_unique
           source2_draft no_owner (world1 [])).
  - vm_compute. reflexivity.
  - apply insert_non_empty.
Defined.

Lemma persist_new_missing_argument_witness :
  ∃ e, ConceptContainerModel.persist_new full_clean_unique source2_draft
         no_owner (world1 []) = (Returned e, world1 [])
       ∧ ("parent" ∈ dom e
          ↔ ConceptContainerModel.parent_resource no_owner = None)
       ∧ ("owner" ∈ dom e ↔ ConceptContainerModel.owner no_owner = None)
       ∧ ∀ k, k ∈ dom e → k = "parent" ∨ k = "owner".
Proof.
  apply (persist_new_missing_argument full_clean_unique source2_draft
           no_owner (world1 [])).
  right. reflexivity.
Defined.

Lemma persist_new_never_reports_save_failure_witness :
  fst (ConceptContainerModel.persist_new full_clean_unique source2_draft
         owner_and_parent (world1 [false; true])) = Raised
  ∨ fst (ConceptContainerModel.persist_new full_clean_unique source2_draft
           owner_and_parent (world1 [false; true])) = Returned ∅.
Proof.
  apply (persist_new_never_reports_save_failure full_clean_unique
           source2_draft owner_and_parent (world1 [false; true])
           (snd (ConceptContainerModel.persist_new full_clean_unique
                   source2_draft owner_and_parent (world1 [false; true])))).
  - simpl. eauto.
  - simpl. eauto.
  - vm_compute. reflexivity.
  - vm_compute. reflexivity.
Defined.

(** ** Changing a container *)

(** X6.  [persist_changes] of a container never touches the versions.  A
    returned dictionary with an entry means that nothing was written, and
    a parent that is [None] always gives the entry [parent].  After a
    return without entry the object is stored as it was passed in: the
    keyword [parent_resource] is not copied into it. *)
Theorem container_persist_changes_effects
    (full_clean : list Source → Source → error_dict)
    (obj : Source) (kw : kwarg (option parent_ref)) (w w' : world)
    (out : outcome) :
  ConceptContainerModel.persist_changes full_clean obj kw w = (out, w') →
  db_versions w' = db_versions w
  ∧ (∀ e, out = Returned e → e ≠ ∅ → w' = w)
  ∧ (match kw with Given p => p | Absent => src_parent obj end = None →
     ∃ e, out = Returned e ∧ is_Some (e !! "parent") ∧ w' = w)
  ∧ (out = Returned ∅ →
     ∃ obj1, obj1 ∈ db_sources w'
             ∧ obj1 = set_src_id (src_id obj1) obj
             ∧ src_parent obj1 = src_parent obj).
Proof.
  unfold ConceptContainerModel.persist_changes. intros Hrun.
  destruct (decide (_ ≠ ∅)) as [Herr|Hok].
  - simplify_eq. split_and!; [done|done| |].
    + intros Hnone. rewrite Hnone in *. eexists. split_and!; [done| |done].
      destruct (full_clean (db_sources w') obj !! "parent") as [x|] eqn:Hfc.
      * exists x. by apply lookup_union_Some_l.
      * eexists. rewrite lookup_union_r by done. apply lookup_insert_eq.
    + intros [= He]. by rewrite He in Herr.
  - destruct (save_source obj w) as [[obj1|] w1] eqn:Hsave; simplify_eq.
    + apply save_source_ok in Hsave as (Hin & Hvers & Hsome & Hobj1).
      split_and!; [done| | |].
      * intros e [= <-] He. by destruct Hok.
      * intros Hnone. rewrite Hnone in Hok. destruct Hok.
        intros Hempty.
        assert ((full_clean (db_sources w) obj
                 ∪ <["parent":=Msg "Source parent cannot be None."]> ∅)
                !! "parent" = None) as Hlook by (by rewrite Hempty).
        apply lookup_union_None in Hlook as [_ Hlook].
        by rewrite lookup_insert_eq in Hlook.
      * intros _. exists obj1. split_and!; [done|done|].
        rewrite Hobj1. done.
    + unfold save_source, next_fault in Hsave.
      split_and!; [|done| |done].
      * destruct (faults w) as [|[] fs]; simpl in Hsave;
          destruct (src_id obj); by simplify_eq.
      * intros Hnone. rewrite Hnone in Hok. destruct Hok.
        intros Hempty.
        assert ((full_clean (db_sources w) obj
                 ∪ <["parent":=Msg "Source parent cannot be None."]> ∅)
                !! "parent" = None) as Hlook by (by rewrite Hempty).
        apply lookup_union_None in Hlook as [_ Hlook].
        by rewrite lookup_insert_eq in Hlook.
Qed.

Lemma container_persist_changes_effects_witness :
  let run :=
    ConceptContainerModel.persist_changes full_clean_unique source1
      (Given (Some {| parent_type := Organization; parent_id := "org2" |}))
      (world1 []) in
  db_versions (snd run) = db_versions (world1 [])
  ∧ (∀ e, fst run = Returned e → e ≠ ∅ → snd run = world1 [])
  ∧ (match
       Given (Some {| parent_type := Organization; parent_id := "org2" |})
     with
     | Given p => p
     | Absent => src_parent source1
     end = None →
     ∃ e, fst run = Returned e ∧ is_Some (e !! "parent")
          ∧ snd run = world1 [])
  ∧ (fst run = Returned ∅ →
     ∃ obj1, obj1 ∈ db_sources (snd run)
             ∧ obj1 = set_src_id (src_id obj1) source1
             ∧ src_parent obj1 = src_parent source1).
Proof.
  intros run.
  apply (container_persist_changes_effects full_clean_unique source1
           (Given (Some {| parent_type := Organization; parent_id := "org2" |}))
           (world1 [])).
  apply surjective_pairing.
Defined.

(** ** Changing a container version, continued *)

(** X7.  Without a versioned object, neither passed in nor reachable from
    the version, [persist_changes] returns the single entry
    [non_field_errors] and writes nothing. *)
Theorem persist_changes_without_versioned_object (obj : SourceVersion)
    (kw : ConceptContainerVersionModel.kwargs) (w : world) :
  match ConceptContainerVersionModel.kw_versioned_object kw with
  | Given o => o
  | Absent => ConceptContainerVersionModel.versioned_object obj w
  end = None →
  ∃ e, ConceptContainerVersionModel.persist_changes obj kw w = (Returned e, w)
       ∧ dom e = {["non_field_errors"]}.
Proof.
  intros Hnone. unfold ConceptContainerVersionModel.persist_changes.
  rewrite Hnone. eexists. split; [reflexivity|].
  by rewrite dom_insert_L, dom_empty_L, (right_id_L ∅ (∪)).
Qed.

(** X8.  Whenever [persist_changes] of a version returns a dictionary with
    an entry, nothing was written. *)
Theorem persist_changes_error_return_writes_nothing (obj : SourceVersion)
    (kw : ConceptContainerVersionModel.kwargs) (w w' : world)
    (e : error_dict) :
  ConceptContainerVersionModel.persist_changes obj kw w = (Returned e, w') →
  e ≠ ∅ → w' = w.
Proof.
  unfold ConceptContainerVersionModel.persist_changes.
  destruct (match ConceptContainerVersionModel.kw_versioned_object kw with
            | Given o => o
            | Absent => ConceptContainerVersionModel.versioned_object obj w
            end) as [vo|]; [|by intros [= _ ->]].
  destruct (bool_decide _ && bool_decide _); [by intros [= _ ->]|].
  destruct (ConceptContainerVersionModel.resolve_previous_version _ _ _ _)
    as [e1 obj1].
  destruct (ConceptContainerVersionModel.resolve_parent_version _ _ _ _)
    as [e2 obj2].
  destruct (decide (e2 ≠ ∅)) as [|Hok]; [by intros [= _ ->]|].
  intros Hrun Hne. exfalso. apply Hok. intros He2. apply Hne.
  repeat case_match; simplify_eq.
  all: match goal with
       | H : ConceptContainerVersionModel.persist_changes_try _ _ _ _ = _ |- _ =>
           by apply persist_changes_try_returns in H
       end.
Qed.


Lemma resolve_previous_version_flags (w : world) (vo : option ident)
    (e e' : error_dict) (obj obj' : SourceVersion) :
  ConceptContainerVersionModel.resolve_previous_version w vo e obj = (e', obj') →
  released obj' = released obj ∧ _was_released obj' = _was_released obj
  ∧ versioned_object_id obj' = versioned_object_id obj
  ∧ _parent_version_mnemonic obj' = _parent_version_mnemonic obj.
Proof.
  unfold ConceptContainerVersionModel.resolve_previous_version.
  repeat case_match; intros; simplify_eq; done.
Qed.

Lemma resolve_parent_version_flags (w : world) (vo : option ident)
    (e e' : error_dict) (obj obj' : SourceVersion) :
  ConceptContainerVersionModel.resolve_parent_version w vo e obj = (e', obj') →
  released obj' = released obj ∧ _was_released obj' = _was_released obj
  ∧ versioned_object_id obj' = versioned_object_id obj.
Proof.
  unfold ConceptContainerVersionModel.resolve_parent_version.
  repeat case_match; intros; simplify_eq; done.
Qed.

(** X14.  [persist_new] of a version that carries no [_was_released]
    attribute, as a freshly built one does, adds one released record and
    changes no stored record: a version of the same object that was
    released before is released still. *)
Theorem version_persist_new_keeps_earlier_release (obj : SourceVersion)
    (kw : ConceptContainerVersionModel.kwargs) (w w' : world) :
  ConceptContainerVersionModel.persist_new obj kw w = (Returned ∅, w') →
  _was_released obj = None → id obj = None →
  ∃ r, db_versions w' = db_versions w ++ [r]
       ∧ released r = true
       ∧ ∀ i v, db_versions w !! i = Some v → db_versions w' !! i = Some v.
Proof.
  unfold ConceptContainerVersionModel.persist_new,
    ConceptContainerVersionModel.persist_changes.
  intros Hrun Hwas Hid. simpl in Hrun.
  destruct (match ConceptContainerVersionModel.kw_versioned_object kw with
            | Given o => o
            | Absent => _
            end) as [vo|]; [|simplify_eq].
  destruct (bool_decide _ && bool_decide _); [by simplify_eq|].
  destruct (ConceptContainerVersionModel.resolve_previous_version _ _ _ _)
    as [e1 obj1] eqn:Hprev.
  destruct (ConceptContainerVersionModel.resolve_parent_version _ _ _ _)
    as [e2 obj2] eqn:Hpar.
  pose proof (resolve_previous_version_keeps _ _ _ _ _ _ Hprev)
    as (Hid1 & _).
  pose proof (resolve_parent_version_keeps _ _ _ _ _ _ Hpar) as (Hid2 & _).
  apply resolve_previous_version_flags in Hprev as (Hr1 & Hw1 & _).
  apply resolve_parent_version_flags in Hpar as (Hr2 & Hw2 & _).
  simpl in *.
  destruct (decide (e2 ≠ ∅)); [by simplify_eq|].
  destruct (SourceVersion.seed_concepts (db_versions w) obj2)
    as [obj3|] eqn:Hseeded; [|done].
  apply seed_concepts_spec in Hseeded as [Hobj3 _].
  assert (_was_released obj3 = None) as Hw3.
  { rewrite Hobj3. simpl. congruence. }
  rewrite Hw3 in Hrun.
  unfold ConceptContainerVersionModel.persist_changes_try,
    ConceptContainerVersionModel.persist_changes_finally in Hrun.
  destruct (save_version (del_was_released obj3) w) as [[obj4|] w4] eqn:Hsave;
    [|done].
  simplify_eq.
  apply save_version_new in Hsave
    as (r & _ & Hdb & _ & _ & _ & _ & Hrel & _);
    [|rewrite Hobj3; simpl; congruence].
  exists r. split_and!; [done| |].
  - rewrite Hrel, Hobj3. simpl. congruence.
  - intros i v Hi. rewrite Hdb. by apply lookup_app_l_Some.
Qed.

(** X15.  Releasing a version that was not released before needs exactly
    one released version of the same object in the store.  When there is
    none, or more than one, [persist_changes] writes nothing: it returns a
    dictionary with an entry from the checks that come first, or it ends in
    an exception, as the lookup of the prior release does before the
    [try]. *)
Theorem persist_changes_release_without_prior_release (obj : SourceVersion)
    (kw : ConceptContainerVersionModel.kwargs) (w w' : world)
    (out : outcome) :
  ConceptContainerVersionModel.persist_changes obj kw w = (out, w') →
  released obj = true → _was_released obj = Some false →
  (∀ vo,
     match ConceptContainerVersionModel.kw_versioned_object kw with
     | Given o => o
     | Absent => ConceptContainerVersionModel.versioned_object obj w
     end = Some vo →
     length (filter (λ v, versioned_object_id v = src_id vo
                          ∧ released v = true) (db_versions w)) ≠ 1) →
  w' = w ∧ (out = Raised ∨ ∃ e, out = Returned e ∧ e ≠ ∅).
Proof.
  unfold ConceptContainerVersionModel.persist_changes.
  intros Hrun Hrel Hwas Hcount.
  destruct (match ConceptContainerVersionModel.kw_versioned_object kw with
            | Given o => o
            | Absent => ConceptContainerVersionModel.versioned_object obj w
            end) as [vo|].
  2:{ simplify_eq. split; [done|]. right. eexists. split; [done|].
      apply insert_non_empty. }
  specialize (Hcount vo eq_refl).
  destruct (bool_decide _ && bool_decide _).
  { unfold ConceptContainerVersionModel.cls_name in Hrun. simplify_eq. eauto. }
  destruct (ConceptContainerVersionModel.resolve_previous_version _ _ _ _)
    as [e1 obj1] eqn:Hprev.
  destruct (ConceptContainerVersionModel.resolve_parent_version _ _ _ _)
    as [e2 obj2] eqn:Hpar.
  apply resolve_previous_version_flags in Hprev as (Hr1 & Hw1 & Hv1 & _).
  apply resolve_parent_version_flags in Hpar as (Hr2 & Hw2 & Hv2).
  simpl in *.
  destruct (decide (e2 ≠ ∅)); [simplify_eq; by eauto|].
  destruct (if ConceptContainerVersionModel.kw_seed_concepts kw
            then SourceVersion.seed_concepts (db_versions w) obj2
            else Ok obj2) as [obj3|] eqn:Hseeded; [|simplify_eq; by eauto].
  assert (obj3 = set_concepts (concepts obj3) obj2) as Hobj3.
  { destruct (ConceptContainerVersionModel.kw_seed_concepts kw).
    - by apply seed_concepts_spec in Hseeded as [? _].
    - injection Hseeded as ->. by destruct obj3. }
  assert (_was_released obj3 = Some false ∧ released obj3 = true
          ∧ versioned_object_id obj3 = src_id vo) as (Hw3 & Hr3 & Hv3).
  { rewrite Hobj3. simpl. split_and!; congruence. }
  rewrite Hw3, Hr3, Hv3 in Hrun. simpl in Hrun.
  unfold ConceptContainerVersionModel.get_released in Hrun.
  destruct (filter _ (db_versions w)) as [|r [|r' l]]; simpl in *;
    simplify_eq; eauto.
Qed.

(** ** Stored versions and their keys *)

Lemma version_ids_elem_of (l : list SourceVersion) (i : ident) :
  i ∈ version_ids l ↔ Some i ∈ id <$> l.
Proof.
  unfold version_ids. rewrite list_elem_of_omap, list_elem_of_fmap.
  split.
  - intros (r & Hr & Hid). by exists r.
  - intros (r & Hid & Hr). by exists r.
Qed.

Lemma versions_wf_inj (l : list SourceVersion) (r p : SourceVersion) :
  NoDup (id <$> l) → r ∈ l → p ∈ l → id r = id p → r = p.
Proof.
  induction l as [|x l IH]; simpl.
  - intros _ Hr. by apply elem_of_nil in Hr.
  - intros [Hx Hl]%NoDup_cons [->|Hr]%elem_of_cons [->|Hp]%elem_of_cons Heq.
    + done.
    + destruct Hx. rewrite Heq. by apply list_elem_of_fmap_2.
    + destruct Hx. rewrite <- Heq. by apply list_elem_of_fmap_2.
    + by apply IH.
Qed.

Lemma filter_none {A : Type} (P : A → Prop) `{∀ x, Decision (P x)}
    (l : list A) :
  (∀ x, x ∈ l → ¬ P x) → filter P l = [].
Proof.
  induction l as [|x l IH]; [done|]. intros Hall.
  rewrite filter_cons_False by (apply Hall, list_elem_of_here).
  apply IH. intros y Hy. apply Hall. by apply list_elem_of_further.
Qed.

(** In a collection with distinct keys, a map that sends the record with
    key [j] to [X] and every other record out of [P] leaves [X] as the
    only record in [P]. *)
Lemma filter_fmap_single (P : SourceVersion → Prop)
    `{∀ x, Decision (P x)} (h : SourceVersion → SourceVersion)
    (X : SourceVersion) (j : ident) (l : list SourceVersion) :
  NoDup (id <$> l) → Some j ∈ id <$> l →
  (∀ r, r ∈ l → id r = Some j → h r = X) →
  (∀ r, r ∈ l → id r ≠ Some j → ¬ P (h r)) →
  P X →
  filter P (h <$> l) = [X].
Proof.
  intros Hnd Hin Hhit Hmiss HX.
  induction l as [|r l IH]; simpl in *.
  - by apply elem_of_nil in Hin.
  - apply NoDup_cons in Hnd as [Hr Hnd].
    destruct (decide (id r = Some j)) as [Hj|Hj].
    + rewrite (Hhit r) by (done || apply list_elem_of_here).
      rewrite filter_cons_True by done. f_equal.
      apply filter_none. intros y [x [-> Hx]]%list_elem_of_fmap.
      apply Hmiss; [by apply list_elem_of_further|].
      intros Hxj. apply Hr. rewrite Hj, <- Hxj. by apply list_elem_of_fmap_2.
    + rewrite filter_cons_False
        by (apply Hmiss; [apply list_elem_of_here|done]).
      apply IH; [done| | |].
      * apply elem_of_cons in Hin as [Hin|Hin]; [congruence|done].
      * intros x Hx. apply Hhit. by apply list_elem_of_further.
      * intros x Hx. apply Hmiss. by apply list_elem_of_further.
Qed.

Lemma save_version_update (obj : SourceVersion) (w : world) (i : ident) :
  faults w !! 0 ≠ Some true →
  id obj = Some i → i ∈ version_ids (db_versions w) →
  ∃ w1, save_version obj w = (Ok obj, w1)
        ∧ db_versions w1 = overwrite i (stored obj) <$> db_versions w
        ∧ db_sources w1 = db_sources w
        ∧ faults w1 = tail (faults w).
Proof.
  unfold save_version, next_fault. intros Hok Hid Hin.
  destruct (faults w) as [|[] fs] eqn:Hf; simpl in *; [|done|].
  all: rewrite Hid; simpl; rewrite bool_decide_eq_true_2 by done.
  all: eexists; split; [reflexivity|]; simpl; by rewrite ?Hf.
Qed.

Lemma save_version_insert (obj : SourceVersion) (w : world) :
  faults w !! 0 ≠ Some true →
  (∀ i, id obj = Some i → i ∉ version_ids (db_versions w)) →
  ∃ obj1 w1, save_version obj w = (Ok obj1, w1)
        ∧ db_versions w1 = db_versions w ++ [stored obj1]
        ∧ obj1 = set_created_at (clock w) (set_id (id obj1) obj)
        ∧ (id obj1 = id obj
           ∨ id obj1 = Some (fresh_id (version_ids (db_versions w))))
        ∧ db_sources w1 = db_sources w
        ∧ faults w1 = tail (faults w).
Proof.
  unfold save_version, next_fault. intros Hok Hnew.
  destruct (faults w) as [|[] fs] eqn:Hf; simpl in *; [|done|].
  all: destruct (id obj) as [i|] eqn:Hid; simpl;
    [rewrite bool_decide_eq_false_2 by (by apply Hnew)|].
  all: eexists _, _; split; [reflexivity|]; simpl; rewrite ?Hf, ?Hid.
  all: split_and!; try done; eauto.
  all: destruct obj; simpl in *; by subst.
Qed.

Lemma get_released_Ok (w : world) (vo : option ident) (pr : SourceVersion) :
  ConceptContainerVersionModel.get_released w vo = Ok pr →
  filter (λ v, versioned_object_id v = vo ∧ released v = true)
    (db_versions w) = [pr]
  ∧ pr ∈ db_versions w ∧ versioned_object_id pr = vo ∧ released pr = true.
Proof.
  unfold ConceptContainerVersionModel.get_released.
  destruct (filter _ (db_versions w)) as [|r [|r' l]] eqn:Hf; try done.
  intros [= ->]. split; [done|].
  assert (pr ∈ filter (λ v, versioned_object_id v = vo ∧ released v = true)
            (db_versions w)) as Hin by (rewrite Hf; apply list_elem_of_here).
  apply list_elem_of_filter in Hin as [[Hvo Hrel] Hin]. done.
Qed.

(** X13.  Releasing a stored version swaps the flag: with one released
    version [pr] of the object in a store with distinct keys, and both
    writes going through, [persist_changes] returns no error, the record of
    [pr] is stored unreleased, and the version just saved is the only
    released version of the object, hence the one that
    [get_latest_version_of] gives. *)
Theorem persist_changes_release_swaps (obj : SourceVersion)
    (kw : ConceptContainerVersionModel.kwargs) (w : world) (vo : Source)
    (pr : SourceVersion) (j : ident) :
  match ConceptContainerVersionModel.kw_versioned_object kw with
  | Given o => o
  | Absent => ConceptContainerVersionModel.versioned_object obj w
  end = Some vo →
  ConceptContainerVersionModel.kw_mnemonic kw = Absent →
  ConceptContainerVersionModel.kw_seed_concepts kw = false →
  _previous_version_mnemonic obj = None →
  _parent_version_mnemonic obj = None →
  released obj = true → _was_released obj = Some false →
  versions_wf (db_versions w) →
  id obj = Some j → j ∈ version_ids (db_versions w) →
  ConceptContainerVersionModel.get_released w (src_id vo) = Ok pr →
  id pr ≠ Some j →
  (∀ i, i < 2 → faults w !! i ≠ Some true) →
  ∃ w' r,
    ConceptContainerVersionModel.persist_changes obj kw w = (Returned ∅, w')
    ∧ filter (λ v, versioned_object_id v = src_id vo ∧ released v = true)
        (db_versions w') = [r]
    ∧ id r = Some j
    ∧ ConceptContainerVersionModel.get_latest_version_of (db_versions w')
        (src_id vo) = Some r
    ∧ stored (set_released false pr) ∈ db_versions w'
    ∧ length (db_versions w') = length (db_versions w).
Proof.
  intros Hvo Hkw Hseed Hprev Hpar Hrel Hwas [Hnd Hids] Hid Hin Hget Hne Hfaults.
  destruct (get_released_Ok _ _ _ Hget) as (Hfilter & Hprin & Hprvo & Hprrel).
  destruct (Hids pr Hprin) as [i Hi].
  unfold ConceptContainerVersionModel.persist_changes.
  rewrite Hvo, Hkw, Hseed. simpl.
  rewrite bool_decide_eq_false_2 by (intros Hneq; by apply Hneq). simpl.
  unfold ConceptContainerVersionModel.resolve_previous_version,
    ConceptContainerVersionModel.resolve_parent_version. simpl.
  rewrite Hprev. simpl. rewrite Hpar. simpl.
  rewrite decide_False by (intros Hneq; by apply Hneq).
  rewrite Hwas, Hrel. simpl. rewrite Hget.
  unfold ConceptContainerVersionModel.persist_changes_try.
  destruct (save_version_update (set_released false pr) w i)
    as (w1 & Hs1 & Hdb1 & _ & Hf1); [apply Hfaults; lia|done| |].
  { apply version_ids_elem_of. rewrite <- Hi. by apply list_elem_of_fmap_2. }
  rewrite Hs1.
  set (obj' := del_was_released
                 (set_mnemonic (mnemonic obj)
                    (set_versioned_object_id (src_id vo) obj))).
  assert (∀ r, id (overwrite i (stored (set_released false pr)) r) = id r)
    as Hkeep.
  { intros r. unfold overwrite. destruct (decide (id r = Some i)); [|done].
    simpl. congruence. }
  destruct (save_version_update obj' w1 j) as (w2 & Hs2 & Hdb2 & _ & _).
  { rewrite Hf1, lookup_tail. apply Hfaults. lia. }
  { done. }
  { apply version_ids_elem_of. rewrite Hdb1, <- list_fmap_compose.
    erewrite list_fmap_ext; [by apply version_ids_elem_of|].
    intros k r _. apply Hkeep. }
  assert (∀ r, overwrite j (stored obj')
                 (overwrite i (stored (set_released false pr)) r)
               = if decide (id r = Some j) then stored obj'
                 else if decide (id r = Some i)
                      then stored (set_released false pr) else r) as Hcomp.
  { intros r. unfold overwrite at 1. rewrite Hkeep.
    destruct (decide (id r = Some j)); [done|]. done. }
  rewrite Hs2. eexists w2, (stored obj'). split; [reflexivity|].
  rewrite Hdb2, Hdb1, <- list_fmap_compose.
  assert (filter (λ v, versioned_object_id v = src_id vo ∧ released v = true)
            ((overwrite j (stored obj')
              ∘ overwrite i (stored (set_released false pr)))
               <$> db_versions w) = [stored obj']) as Hone; cycle 1.
  { split_and!; [done|done| | |by rewrite length_fmap].
    - unfold ConceptContainerVersionModel.get_latest_version_of. simpl.
      by rewrite Hone.
    - apply list_elem_of_fmap. exists pr. split; [|done]. simpl.
      by rewrite Hcomp, decide_False, decide_True. }
  apply (filter_fmap_single _ _ _ j); [done| | | |done].
  - by apply version_ids_elem_of.
  - intros r _ Hr. simpl. by rewrite Hcomp, decide_True.
  - intros r Hr Hrj. simpl. rewrite Hcomp, decide_False by done.
    destruct (decide (id r = Some i)) as [Hri|Hri].
    + simpl. by intros [_ ?].
    + intros HP. apply Hri.
      assert (r ∈ filter (λ v, versioned_object_id v = src_id vo
                               ∧ released v = true) (db_versions w)) as Hrf
        by (by apply list_elem_of_filter).
      rewrite Hfilter in Hrf. apply list_elem_of_singleton in Hrf as ->.
      done.
Qed.

Lemma save_version_Ok_update (obj obj1 : SourceVersion) (w w1 : world)
    (i : ident) :
  save_version obj w = (Ok obj1, w1) →
  id obj = Some i → i ∈ version_ids (db_versions w) →
  db_versions w1 = overwrite i (stored obj) <$> db_versions w.
Proof.
  unfold save_version, next_fault. intros Hrun Hid Hin.
  destruct (faults w) as [|[] fs]; simpl in *; rewrite ?Hid in Hrun;
    simpl in Hrun; rewrite ?bool_decide_eq_true_2 in Hrun by done;
    by simplify_eq.
Qed.

Lemma persist_changes_try_appends (e e' : error_dict)
    (pr : option SourceVersion) (obj : SourceVersion) (w w' : world) :
  ConceptContainerVersionModel.persist_changes_try e pr obj w
  = (Returned e', w') →
  id obj = None →
  (∀ p, pr = Some p → p ∈ db_versions w ∧ is_Some (id p)) →
  ∃ r, db_versions w' = (unrelease pr <$> db_versions w) ++ [r]
       ∧ previous_version r = previous_version obj
       ∧ parent_version r = parent_version obj
       ∧ mnemonic r = mnemonic obj.
Proof.
  unfold ConceptContainerVersionModel.persist_changes_try,
    ConceptContainerVersionModel.persist_changes_finally.
  intros Hrun Hid Hpr.
  destruct pr as [p|].
  - destruct (Hpr p eq_refl) as [Hin [i Hi]].
    destruct (save_version (set_released false p) w) as [[p'|] w1] eqn:Hs1;
      [|done].
    destruct (save_version obj w1) as [[obj'|] w2] eqn:Hs2; [|done].
    simplify_eq.
    apply (save_version_Ok_update _ _ _ _ i) in Hs1; [|done|].
    2:{ apply version_ids_elem_of. rewrite <- Hi.
        by apply list_elem_of_fmap_2. }
    destruct (save_version_new _ _ _ _ Hid Hs2)
      as (r & _ & Hdb & _ & Hp & Hq & _ & _ & Hm).
    exists r. rewrite Hdb, Hs1. split_and!; [|done..].
    f_equal. apply list_fmap_ext. intros k x _.
    unfold overwrite, unrelease. rewrite Hi. done.
  - destruct (save_version obj w) as [[obj'|] w2] eqn:Hs2; [|done].
    simplify_eq.
    destruct (save_version_new _ _ _ _ Hid Hs2)
      as (r & _ & Hdb & _ & Hp & Hq & _ & _ & Hm).
    exists r. rewrite Hdb. split_and!; [|done..].
    f_equal. symmetry. apply list_fmap_id.
Qed.

Lemma resolve_previous_version_link (w : world) (vo : option ident)
    (obj obj' : SourceVersion) (m : string) :
  ConceptContainerVersionModel.resolve_previous_version w vo ∅ obj
  = (∅, obj') →
  _previous_version_mnemonic obj = Some m → m ≠ "" →
  ∃ p, p ∈ db_versions w ∧ versioned_object_id p = vo ∧ mnemonic p = m
       ∧ previous_version obj' = id p.
Proof.
  unfold ConceptContainerVersionModel.resolve_previous_version.
  intros Hrun Hm Hne. rewrite Hm in Hrun.
  unfold truthy in Hrun. rewrite bool_decide_eq_true_2 in Hrun by done.
  destruct (ConceptContainerVersionModel.by_mnemonic w vo m) as [|p l] eqn:Hby.
  - apply (f_equal fst) in Hrun. simpl in Hrun.
    by apply insert_non_empty in Hrun.
  - destruct (decide (mnemonic obj = m)).
    + apply (f_equal fst) in Hrun. simpl in Hrun.
    by apply insert_non_empty in Hrun.
    + simplify_eq. exists p.
      assert (p ∈ ConceptContainerVersionModel.by_mnemonic w vo m) as Hp
        by (rewrite Hby; apply list_elem_of_here).
      apply list_elem_of_filter in Hp as [[Hvo Hmn] Hin]. done.
Qed.

(** X12.  A previous version given by its mnemonic reads back as that
    mnemonic.  When a new version with [_previous_version_mnemonic = m] is
    persisted without error in a store with distinct keys, the stored
    record's [previous_version_mnemonic] is [m]. *)
Theorem persist_changes_previous_version_round_trip (obj : SourceVersion)
    (kw : ConceptContainerVersionModel.kwargs) (w w' : world) (m : string) :
  ConceptContainerVersionModel.persist_changes obj kw w = (Returned ∅, w') →
  _previous_version_mnemonic obj = Some m → m ≠ "" →
  id obj = None →
  versions_wf (db_versions w) →
  ∃ r, last (db_versions w') = Some r
       ∧ SourceVersion.previous_version_mnemonic (db_versions w') r
         = Ok (Some m).
Proof.
  unfold ConceptContainerVersionModel.persist_changes.
  intros Hrun Hm Hne Hid [Hnd Hids].
  destruct (match ConceptContainerVersionModel.kw_versioned_object kw with
            | Given o => o
            | Absent => ConceptContainerVersionModel.versioned_object obj w
            end) as [vo|]; [|simplify_eq].
  destruct (bool_decide _ && bool_decide _); [by simplify_eq|].
  destruct (ConceptContainerVersionModel.resolve_previous_version _ _ _ _)
    as [e1 obj1] eqn:Hprev.
  destruct (ConceptContainerVersionModel.resolve_parent_version _ _ _ _)
    as [e2 obj2] eqn:Hpar.
  destruct (decide (e2 ≠ ∅)) as [|He2]; [by simplify_eq|].
  assert (e2 = ∅) as -> by (by destruct (decide (e2 = ∅)); [|destruct He2]).
  assert (e1 = ∅) as ->.
  { destruct (resolve_parent_version_keys _ _ _ _ _ _ Hpar) as [->|[x Hx]];
      [done|]. symmetry in Hx. by apply insert_non_empty in Hx. }
  pose proof (resolve_previous_version_keeps _ _ _ _ _ _ Hprev) as (Hid1 & _).
  apply resolve_previous_version_link with (m := m) in Hprev
    as (p & Hpin & _ & Hpm & Hlink); [|done..].
  apply resolve_parent_version_keeps in Hpar as (Hid2 & _ & Hp2 & _).
  simpl in Hid1.
  assert (∃ obj3 pr,
            ConceptContainerVersionModel.persist_changes_try ∅ pr
              (del_was_released obj3) w = (Returned ∅, w')
            ∧ id obj3 = id obj2
            ∧ previous_version obj3 = previous_version obj2
            ∧ ∀ p0, pr = Some p0 → p0 ∈ db_versions w ∧ is_Some (id p0))
    as (obj3 & pr & Htry & Hid3 & Hp3 & Hpr).
  { destruct (if ConceptContainerVersionModel.kw_seed_concepts kw
              then SourceVersion.seed_concepts (db_versions w) obj2
              else Ok obj2) as [obj3|] eqn:Hseeded; [|done].
    assert (id obj3 = id obj2
            ∧ previous_version obj3 = previous_version obj2) as [Hid3 Hp3].
    { destruct (ConceptContainerVersionModel.kw_seed_concepts kw).
      - apply seed_concepts_spec in Hseeded as [-> _]. done.
      - by injection Hseeded as ->. }
    destruct (_was_released obj3) as [was|].
    - destruct (released obj3 && negb was).
      + destruct (ConceptContainerVersionModel.get_released w
                    (versioned_object_id obj3)) as [p0|] eqn:Hget; [|done].
        exists obj3, (Some p0). split_and!; [done..|].
        intros ? [= <-].
        apply get_released_Ok in Hget as (_ & Hin & _). eauto.
      + exists obj3, None. split_and!; done.
    - exists obj3, None. split_and!; done. }
  apply persist_changes_try_appends in Htry
    as (r & Hdb & Hrp & _); [|simpl; congruence|done].
  simpl in Hrp. rewrite Hp3, Hp2, Hlink in Hrp.
  destruct (Hids p Hpin) as [i Hi]. rewrite Hi in Hrp.
  exists r. rewrite Hdb. split; [apply last_snoc|].
  unfold SourceVersion.previous_version_mnemonic, SourceVersion.fetch.
  rewrite Hrp, filter_app.
  assert (∀ x, id (unrelease pr x) = id x) as Hkeep.
  { intros x. unfold unrelease. destruct pr as [p0|]; [|done].
    destruct (decide (id x = id p0)); [|done]. simpl. congruence. }
  rewrite (filter_fmap_single (λ x, id x = Some i) (unrelease pr)
             (unrelease pr p) i).
  - simpl. do 2 f_equal. rewrite <- Hpm.
    unfold unrelease. destruct pr as [p0|]; [|done].
    destruct (decide (id p = id p0)) as [Heq|]; [|done].
    destruct (Hpr p0 eq_refl) as [Hp0 _].
    by rewrite (versions_wf_inj _ p p0 Hnd Hpin Hp0 Heq).
  - done.
  - rewrite <- Hi. by apply list_elem_of_fmap_2.
  - intros x Hx Hxi. f_equal.
    apply (versions_wf_inj _ x p Hnd Hx Hpin). congruence.
  - intros x _ Hxi. by rewrite Hkeep.
  - by rewrite Hkeep.
Qed.

Lemma persist_changes_without_versioned_object_witness :
  ∃ e, ConceptContainerVersionModel.persist_changes orphan_draft no_kwargs
         (world1 []) = (Returned e, world1 [])
       ∧ dom e = {["non_field_errors"]}.
Proof.
  apply (persist_changes_without_versioned_object orphan_draft no_kwargs
           (world1 [])).
  reflexivity.
Defined.

Lemma persist_changes_error_return_writes_nothing_witness :
  snd (ConceptContainerVersionModel.persist_changes draft_v2 no_kwargs world0)
  = world0.
Proof.
  apply (persist_changes_error_return_writes_nothing draft_v2 no_kwargs world0
           _ (<["previousVersion" :=
                  Msgs ["Previous version v1 does not exist."]]> ∅)).
  - vm_compute. reflexivity.
  - apply insert_non_empty.
Defined.

Lemma persist_changes_release_without_prior_release_witness :
  snd (ConceptContainerVersionModel.persist_changes release_v2 no_kwargs
         world_unreleased) = world_unreleased
  ∧ (fst (ConceptContainerVersionModel.persist_changes release_v2 no_kwargs
            world_unreleased) = Raised
     ∨ ∃ e, fst (ConceptContainerVersionModel.persist_changes release_v2
                   no_kwargs world_unreleased) = Returned e
            ∧ e ≠ ∅).
Proof.
  apply (persist_changes_release_without_prior_release release_v2 no_kwargs
           world_unreleased).
  - apply surjective_pairing.
  - reflexivity.
  - reflexivity.
  - intros vo [= <-]. vm_compute. discriminate.
Defined.

Example persist_changes_release_without_prior_release_run :
  ConceptContainerVersionModel.persist_changes release_v2 no_kwargs
    world_unreleased = (Raised, world_unreleased).
Proof. vm_compute. reflexivity. Qed.

Lemma version_persist_new_keeps_earlier_release_witness :
  ∃ r, db_versions
         (snd (ConceptContainerVersionModel.persist_new draft_v2 no_kwargs
                 (world1 [])))
       = db_versions (world1 []) ++ [r]
       ∧ released r = true
       ∧ ∀ i v, db_versions (world1 []) !! i = Some v →
                db_versions
                  (snd (ConceptContainerVersionModel.persist_new draft_v2
                          no_kwargs (world1 []))) !! i = Some v.
Proof.
  apply (version_persist_new_keeps_earlier_release draft_v2 no_kwargs
           (world1 [])).
  - vm_compute. reflexivity.
  - reflexivity.
  - reflexivity.
Defined.

Example version_persist_new_two_releases :
  (λ v, (mnemonic v, released v))
    <$> db_versions
          (snd (ConceptContainerVersionModel.persist_new draft_v2 no_kwargs
                  (world1 [])))
  = [("v1", true); ("v2", true)].
Proof. reflexivity. Qed.

Lemma versions_wf_world2 : versions_wf (db_versions (world2 [])).
Proof.
  split.
  - simpl. apply NoDup_cons. split.
    + intros Hin. apply list_elem_of_singleton in Hin. discriminate.
    + apply NoDup_singleton.
  - intros r Hr. simpl in Hr.
    apply elem_of_cons in Hr as [->|Hr]; [by eexists|].
    apply list_elem_of_singleton in Hr as ->. by eexists.
Defined.

Lemma versions_wf_world1 : versions_wf (db_versions (world1 [])).
Proof.
  split.
  - simpl. apply NoDup_singleton.
  - intros r Hr. simpl in Hr.
    apply list_elem_of_singleton in Hr as ->. by eexists.
Defined.

Lemma persist_changes_release_swaps_witness :
  ∃ w' r,
    ConceptContainerVersionModel.persist_changes release_v2 no_kwargs
      (world2 []) = (Returned ∅, w')
    ∧ filter (λ v, versioned_object_id v = src_id source1 ∧ released v = true)
        (db_versions w') = [r]
    ∧ id r = Some "v2"
    ∧ ConceptContainerVersionModel.get_latest_version_of (db_versions w')
        (src_id source1) = Some r
    ∧ stored (set_released false released_v1) ∈ db_versions w'
    ∧ length (db_versions w') = length (db_versions (world2 [])).
Proof.
  apply (persist_changes_release_swaps release_v2 no_kwargs (world2 [])
           source1 released_v1 "v2"); try reflexivity.
  - apply versions_wf_world2.
  - simpl. apply list_elem_of_further, list_elem_of_here.
  - discriminate.
  - intros i _. simpl. by rewrite lookup_nil.
Defined.

Lemma persist_changes_previous_version_round_trip_witness :
  ∃ r, last
         (db_versions
            (snd (ConceptContainerVersionModel.persist_changes draft_v2
                    seeding_kwargs (world1 [])))) = Some r
       ∧ SourceVersion.previous_version_mnemonic
           (db_versions
              (snd (ConceptContainerVersionModel.persist_changes draft_v2
                      seeding_kwargs (world1 [])))) r
         = Ok (Some "v1").
Proof.
  apply (persist_changes_previous_version_round_trip draft_v2 seeding_kwargs
           (world1 [])).
  - vm_compute. reflexivity.
  - reflexivity.
  - discriminate.
  - reflexivity.
  - apply versions_wf_world1.
Defined.

Lemma persist_changes_rejects_previous_version_witness :
  ∃ e, ConceptContainerVersionModel.persist_changes draft_v2
         (rename_kwargs "v3") world0 = (Returned e, world0)
       ∧ is_Some (e !! "previousVersion").
Proof.
  apply (persist_changes_rejects_previous_version draft_v2
           (rename_kwargs "v3") world0 source1 "v1").
  - reflexivity.
  - right. reflexivity.
  - reflexivity.
  - discriminate.
  - left. reflexivity.
Defined.

Lemma persist_changes_rejects_parent_version_witness :
  ∃ e, ConceptContainerVersionModel.persist_changes draft_v2_child
         (rename_kwargs "v1") (world1 []) = (Returned e, world1 [])
       ∧ is_Some (e !! "parentVersion").
Proof.
  apply (persist_changes_rejects_parent_version draft_v2_child
           (rename_kwargs "v1") (world1 []) source1 "v1").
  - reflexivity.
  - right. reflexivity.
  - reflexivity.
  - discriminate.
  - right. reflexivity.
Defined.

(** ** The member index, continued *)

Lemma index_snoc_fresh (x : ident) (l : list ident) :
  x ∉ l → index x (l ++ [x]) = Some (length l).
Proof.
  induction l as [|y l IH]; simpl.
  - intros _. by rewrite decide_True.
  - intros Hnot. rewrite decide_False.
    + rewrite IH; [done|]. intros Hin. apply Hnot.
      by apply list_elem_of_further.
    + intros ->. apply Hnot. apply list_elem_of_here.
Qed.

Lemma update_concept_version_list_successor (l : list ident)
    (C : ConceptVersion) (x : ident) :
  x ∉ l → cv_previous_version C = Some x →
  SourceVersion.update_concept_version_list (l ++ [x]) C = l ++ [cv_id C].
Proof.
  intros Hnot Hprev. unfold SourceVersion.update_concept_version_list.
  rewrite Hprev, bool_decide_eq_true_2.
  - rewrite index_snoc_fresh by done.
    replace (length l) with (length l + 0) by lia.
    by rewrite insert_app_r.
  - apply elem_of_app. right. apply list_elem_of_here.
Qed.

Lemma update_concept_version_list_chain (l : list ident)
    (cs : list ConceptVersion) (x : ident) :
  x ∉ l → linked x cs → (∀ c, c ∈ cs → cv_id c ∉ l) →
  foldl SourceVersion.update_concept_version_list (l ++ [x]) cs
  = l ++ [default x (cv_id <$> last cs)].
Proof.
  revert x. induction cs as [|c cs IH]; intros x Hx Hlinked Hfresh; [done|].
  destruct Hlinked as [Hprev Hlinked]. simpl.
  rewrite update_concept_version_list_successor by done.
  rewrite IH; [|apply Hfresh, list_elem_of_here|done|].
  - f_equal. f_equal. rewrite last_cons. by destruct (last cs).
  - intros c' Hc'. apply Hfresh. by apply list_elem_of_further.
Qed.

(** X16.  Recording the versions of one concept one after the other keeps
    a single entry for the concept.  When the first version has no
    previous version, each later one has the one before it as previous
    version, and none of their ids is in the list yet, the list ends up
    with one more entry than before: the id of the last version. *)
Theorem update_concept_version_follows_chain (V : SourceVersion)
    (C : ConceptVersion) (cs : list ConceptVersion) :
  cv_previous_version C = None →
  linked (cv_id C) cs →
  (∀ c, c ∈ C :: cs → cv_id c ∉ concepts V) →
  concepts (foldl SourceVersion.update_concept_version V (C :: cs))
  = concepts V ++ [default (cv_id C) (cv_id <$> last cs)].
Proof.
  intros Hfirst Hlinked Hfresh.
  assert (∀ cs' V',
            concepts (foldl SourceVersion.update_concept_version V' cs')
            = foldl SourceVersion.update_concept_version_list (concepts V') cs')
    as Hfold.
  { induction cs' as [|c cs' IH]; intros V'; [done|]. simpl. by rewrite IH. }
  rewrite Hfold. simpl.
  rewrite update_concept_version_list_append by by left.
  apply update_concept_version_list_chain; [|done|].
  - apply Hfresh, list_elem_of_here.
  - intros c Hc. apply Hfresh. by apply list_elem_of_further.
Qed.

Lemma update_concept_version_follows_chain_witness :
  concepts
    (foldl SourceVersion.update_concept_version members_v1
       (concept_version_c1 :: [concept_version_c2; concept_version_c3]))
  = concepts members_v1
    ++ [default (cv_id concept_version_c1)
          (cv_id <$> last [concept_version_c2; concept_version_c3])].
Proof.
  apply (update_concept_version_follows_chain members_v1 concept_version_c1
           [concept_version_c2; concept_version_c3]).
  - reflexivity.
  - simpl. split_and!; reflexivity || exact I.
  - intros c Hc. simpl.
    repeat (apply elem_of_cons in Hc as [->|Hc]).
    + simpl. intros Hin.
      repeat (apply elem_of_cons in Hin as [Hin|Hin]; [discriminate|]).
      by apply elem_of_nil in Hin.
    + simpl. intros Hin.
      repeat (apply elem_of_cons in Hin as [Hin|Hin]; [discriminate|]).
      by apply elem_of_nil in Hin.
    + simpl. intros Hin.
      repeat (apply elem_of_cons in Hin as [Hin|Hin]; [discriminate|]).
      by apply elem_of_nil in Hin.
    + by apply elem_of_nil in Hc.
Defined.

Lemma elem_of_list_insert_inv (l : list ident) (i : nat) (x y : ident) :
  x ∈ <[i := y]> l → x = y ∨ x ∈ l.
Proof.
  revert i. induction l as [|z l IH]; intros i; [by right|].
  destruct i as [|i]; simpl.
  - intros [->|Hin]%elem_of_cons; [by left|].
    right. by apply list_elem_of_further.
  - intros [->|Hin]%elem_of_cons; [right; apply list_elem_of_here|].
    destruct (IH i Hin) as [->|Hl]; [by left|].
    right. by apply list_elem_of_further.
Qed.

Lemma NoDup_list_insert (l : list ident) (i : nat) (y : ident) :
  NoDup l → y ∉ l → NoDup (<[i := y]> l).
Proof.
  revert i. induction l as [|x l IH]; intros i Hnd Hy; [done|].
  apply NoDup_cons in Hnd as [Hx Hnd].
  assert (y ≠ x ∧ y ∉ l) as [Hyx Hyl].
  { split; intros ?; apply Hy; [subst; apply list_elem_of_here|].
    by apply list_elem_of_further. }
  destruct i as [|i]; simpl; apply NoDup_cons.
  - done.
  - split; [|by apply IH].
    intros Hin. by apply elem_of_list_insert_inv in Hin as [->|Hin].
Qed.

(** X17.  The member list stays free of duplicates as long as the id that
    is recorded is not in it already, whether it replaces an entry or is
    appended. *)
Theorem update_concept_version_keeps_NoDup (V : SourceVersion)
    (C : ConceptVersion) :
  NoDup (concepts V) → cv_id C ∉ concepts V →
  NoDup (concepts (SourceVersion.update_concept_version V C)).
Proof.
  intros Hnd Hfresh. simpl.
  unfold SourceVersion.update_concept_version_list.
  assert (NoDup (concepts V ++ [cv_id C])) as Happ.
  { apply NoDup_app. split_and!; [done| |apply NoDup_singleton].
    intros x Hx ->%list_elem_of_singleton. done. }
  destruct (cv_previous_version C) as [p|]; [|done].
  case_bool_decide; [|done].
  destruct (index p (concepts V)); [|done].
  by apply NoDup_list_insert.
Qed.

Lemma update_concept_version_keeps_NoDup_witness :
  NoDup
    (concepts
       (SourceVersion.update_concept_version members_v1 concept_version_b2)).
Proof.
  apply (update_concept_version_keeps_NoDup members_v1 concept_version_b2).
  - simpl. repeat (apply NoDup_cons; split); [| |..|apply NoDup_nil_2].
    + intros Hin.
      repeat (apply elem_of_cons in Hin as [Hin|Hin]; [discriminate|]).
      by apply elem_of_nil in Hin.
    + intros Hin.
      repeat (apply elem_of_cons in Hin as [Hin|Hin]; [discriminate|]).
      by apply elem_of_nil in Hin.
    + intros Hin. by apply elem_of_nil in Hin.
  - simpl. intros Hin.
    repeat (apply elem_of_cons in Hin as [Hin|Hin]; [discriminate|]).
    by apply elem_of_nil in Hin.
Defined.

(** ** Latest version, continued *)

Lemma filter_ext_elem_of {A : Type} (P Q : A → Prop)
    `{∀ x, Decision (P x)} `{∀ x, Decision (Q x)} (l : list A) :
  (∀ x, x ∈ l → P x ↔ Q x) → filter P l = filter Q l.
Proof.
  induction l as [|x l IH]; [done|]. intros Hext.
  rewrite !filter_cons.
  rewrite IH by (intros y Hy; apply Hext; by apply list_elem_of_further).
  destruct (decide (P x)) as [HP|HP]; destruct (decide (Q x)) as [HQ|HQ];
    try done.
  - destruct HQ. by apply (Hext x); [apply list_elem_of_here|].
  - destruct HP. by apply (Hext x); [apply list_elem_of_here|].
Qed.

(** X20.  [SourceVersion] overrides [get_latest_version_of]: the inherited
    query filters on [is_active], the override on [released].  The two give
    the same version whenever every version of the object is released
    exactly when it is active. *)
Theorem get_latest_version_of_override_agrees
    (objects : list SourceVersion) (oid : option ident) :
  (∀ v, v ∈ objects → versioned_object_id v = oid →
        is_active v = released v) →
  ResourceVersionModel.get_latest_version_of objects oid
  = ConceptContainerVersionModel.get_latest_version_of objects oid.
Proof.
  intros Hsame.
  unfold ResourceVersionModel.get_latest_version_of,
    ConceptContainerVersionModel.get_latest_version_of.
  do 2 f_equal. apply filter_ext_elem_of. intros v Hv. simpl.
  split; intros [Hid Hflag]; (split; [done|]);
    specialize (Hsame v Hv Hid); congruence.
Qed.

Lemma get_latest_version_of_override_agrees_witness :
  ResourceVersionModel.get_latest_version_of
    [version_at "v1" true 1; version_at "v2" true 2] (Some "s1")
  = ConceptContainerVersionModel.get_latest_version_of
      [version_at "v1" true 1; version_at "v2" true 2] (Some "s1").
Proof.
  apply get_latest_version_of_override_agrees.
  intros v Hv _.
  apply elem_of_cons in Hv as [->|Hv]; [reflexivity|].
  apply list_elem_of_singleton in Hv as ->. reflexivity.
Defined.

(** ** Logical deletion *)

Lemma source_ids_elem_of (l : list Source) (i : ident) :
  i ∈ source_ids l ↔ Some i ∈ src_id <$> l.
Proof.
  unfold source_ids. rewrite list_elem_of_omap, list_elem_of_fmap.
  split.
  - intros (r & Hr & Hid). by exists r.
  - intros (r & Hid & Hr). by exists r.
Qed.

Lemma sources_wf_inj (l : list Source) (r p : Source) :
  NoDup (src_id <$> l) → r ∈ l → p ∈ l → src_id r = src_id p → r = p.
Proof.
  induction l as [|x l IH]; simpl.
  - intros _ Hr. by apply elem_of_nil in Hr.
  - intros [Hx Hl]%NoDup_cons [->|Hr]%elem_of_cons [->|Hp]%elem_of_cons Heq.
    + done.
    + destruct Hx. rewrite Heq. by apply list_elem_of_fmap_2.
    + destruct Hx. rewrite <- Heq. by apply list_elem_of_fmap_2.
    + by apply IH.
Qed.

Lemma save_source_update (obj : Source) (w : world) (i : ident) :
  faults w !! 0 ≠ Some true →
  src_id obj = Some i → i ∈ source_ids (db_sources w) →
  ∃ w1, save_source obj w = (Ok obj, w1)
        ∧ db_sources w1
          = (λ r, if decide (src_id r = Some i) then obj else r)
              <$> db_sources w
        ∧ db_versions w1 = db_versions w
        ∧ faults w1 = tail (faults w)
        ∧ clock w1 = clock w.
Proof.
  unfold save_source, next_fault. intros Hok Hid Hin.
  destruct (faults w) as [|[] fs] eqn:Hf; simpl in *; [|done|].
  all: rewrite Hid; simpl; rewrite bool_decide_eq_true_2 by done.
  all: eexists; split; [reflexivity|]; simpl; by rewrite ?Hf.
Qed.

Lemma set_src_is_active_same (s : Source) :
  set_src_is_active (src_is_active s) s = s.
Proof. by destruct s. Qed.

(** One step of the loops of [propagate_owner_status]: the stored record
    of [s] takes the flag [b], the other records stay. *)
Lemma flag_step (b : bool) (s : Source) (w : world) :
  sources_wf (db_sources w) → s ∈ db_sources w →
  (∀ i, faults w !! i ≠ Some true) →
  ∃ s' w1,
    (if b then BaseModel.undelete else BaseModel.soft_delete) s w
    = (Ok s', w1)
    ∧ s' = set_src_is_active b s
    ∧ db_sources w1
      = (λ r, if decide (src_id r = src_id s) then set_src_is_active b s
              else r) <$> db_sources w
    ∧ db_versions w1 = db_versions w
    ∧ (∀ i, faults w1 !! i ≠ Some true).
Proof.
  intros [Hnd Hids] Hin Hfaults.
  destruct (Hids s Hin) as [i Hi].
  assert (i ∈ source_ids (db_sources w)) as Hstored.
  { apply source_ids_elem_of. rewrite <- Hi. by apply list_elem_of_fmap_2. }
  destruct (decide (src_is_active s = b)) as [Hsame|Hdiff].
  - exists s, w. split_and!; [| | |done|done].
    + unfold BaseModel.undelete, BaseModel.soft_delete.
      destruct b; by rewrite Hsame.
    + by rewrite <- Hsame, set_src_is_active_same.
    + rewrite <- (list_fmap_id (db_sources w)) at 1.
      apply list_fmap_ext. intros k r Hr. simpl.
      destruct (decide (src_id r = src_id s)) as [Heq|]; [|done].
      apply list_elem_of_lookup_2 in Hr.
      rewrite (sources_wf_inj _ r s Hnd Hr Hin Heq).
      by rewrite <- Hsame, set_src_is_active_same.
  - destruct (save_source_update (set_src_is_active b s) w i)
      as (w1 & Hsave & Hdb & Hvers & Hf & _); [apply Hfaults|done|done|].
    exists (set_src_is_active b s), w1. split_and!; [|done| |done|].
    + unfold BaseModel.undelete, BaseModel.soft_delete.
      destruct b, (src_is_active s); done.
    + rewrite Hdb, Hi. done.
    + intros k. rewrite Hf, lookup_tail. apply Hfaults.
Qed.

(** X18.  [soft_delete] followed by [undelete], on a stored, active source
    in a store with distinct keys and with both writes going through: the
    first call stores the source with [is_active] false, the second gives
    back an object and a store of sources that agree with the ones before
    the two calls on every field other than the time stamps (each [save()]
    rewrites [updated_at]); the stored versions are untouched. *)
Theorem soft_delete_undelete_round_trip (s : Source) (w : world) :
  sources_wf (db_sources w) → s ∈ db_sources w →
  src_is_active s = true →
  (∀ i, faults w !! i ≠ Some true) →
  ∃ s1 w1 s2 w2,
    BaseModel.soft_delete s w = (Ok s1, w1)
    ∧ src_is_active s1 = false
    ∧ s1 ∈ db_sources w1
    ∧ BaseModel.undelete s1 w1 = (Ok s2, w2)
    ∧ src_fields s2 = src_fields s
    ∧ src_fields <$> db_sources w2 = src_fields <$> db_sources w
    ∧ db_versions w2 = db_versions w.
Proof.
  intros Hwf Hin Hactive Hfaults.
  pose proof Hwf as [Hnd Hids].
  destruct (flag_step false s w Hwf Hin Hfaults)
    as (s1 & w1 & Hrun1 & -> & Hdb1 & Hvers1 & Hfaults1).
  assert (set_src_is_active false s ∈ db_sources w1) as Hin1.
  { rewrite Hdb1. apply list_elem_of_fmap. exists s.
    by rewrite decide_True. }
  assert (sources_wf (db_sources w1)) as Hwf1.
  { rewrite Hdb1. split.
    - rewrite <- list_fmap_compose.
      erewrite list_fmap_ext; [exact Hnd|].
      intros k r _. simpl. by destruct (decide (src_id r = src_id s)).
    - intros r [x [-> Hx]]%list_elem_of_fmap.
      destruct (decide (src_id x = src_id s)); [|by apply Hids].
      simpl. by apply Hids. }
  destruct (flag_step true (set_src_is_active false s) w1 Hwf1 Hin1 Hfaults1)
    as (s2 & w2 & Hrun2 & -> & Hdb2 & Hvers2 & _).
  assert (set_src_is_active true (set_src_is_active false s) = s) as Hback.
  { rewrite <- Hactive. by destruct s. }
  rewrite Hback in *.
  eexists _, w1, s, w2. split_and!; [done|done|done|done|done| |congruence].
  f_equal. rewrite Hdb2, Hdb1, <- list_fmap_compose.
  rewrite <- (list_fmap_id (db_sources w)) at 2.
  apply list_fmap_ext. intros k r Hr. simpl.
  apply list_elem_of_lookup_2 in Hr.
  destruct (decide (src_id r = src_id s)) as [Heq|Hneq].
  - rewrite decide_True by done.
    by rewrite (sources_wf_inj _ r s Hnd Hr Hin Heq).
  - by rewrite decide_False.
Qed.

Lemma NoDup_fmap_filter {A B : Type} (f : A → B) (P : A → Prop)
    `{∀ x, Decision (P x)} (l : list A) :
  NoDup (f <$> l) → NoDup (f <$> filter P l).
Proof.
  induction l as [|x l IH]; [done|]. simpl.
  intros [Hx Hnd]%NoDup_cons. rewrite filter_cons.
  destruct (decide (P x)); [|by apply IH]. simpl.
  apply NoDup_cons. split; [|by apply IH].
  intros [y [Hy Hin]]%list_elem_of_fmap. apply Hx.
  apply list_elem_of_filter in Hin as [_ Hin].
  rewrite Hy. by apply list_elem_of_fmap_2.
Qed.

(** The loop over a list [l] of stored sources with distinct keys: every
    stored record whose key is in [l] takes the flag. *)
Lemma for_each_flag (b : bool) (l : list Source) (w : world) :
  sources_wf (db_sources w) →
  (∀ s, s ∈ l → s ∈ db_sources w) →
  NoDup (src_id <$> l) →
  (∀ i, faults w !! i ≠ Some true) →
  ∃ w',
    for_each (if b then BaseModel.undelete else BaseModel.soft_delete) l w
    = (Ok (), w')
    ∧ db_sources w'
      = (λ r, if decide (src_id r ∈ src_id <$> l)
              then set_src_is_active b r else r) <$> db_sources w
    ∧ db_versions w' = db_versions w.
Proof.
  revert w. induction l as [|s l IH]; intros w Hwf Hstored Hnd Hfaults.
  - exists w. split_and!; [done| |done].
    rewrite <- (list_fmap_id (db_sources w)) at 1.
    apply list_fmap_ext. intros k r _. cbv beta.
    destruct (decide _) as [Hin|]; [|done]. by apply elem_of_nil in Hin.
  - pose proof Hwf as [Hwnd Hids].
    assert (s ∈ db_sources w) as Hs by apply Hstored, list_elem_of_here.
    apply NoDup_cons in Hnd as [Hsl Hnd].
    destruct (flag_step b s w Hwf Hs Hfaults)
      as (s' & w1 & Hrun & -> & Hdb1 & Hvers1 & Hfaults1).
    assert (sources_wf (db_sources w1)) as Hwf1.
    { rewrite Hdb1. split.
      - rewrite <- list_fmap_compose.
        erewrite list_fmap_ext; [exact Hwnd|].
        intros k r _. simpl. by destruct (decide (src_id r = src_id s)).
      - intros r [x [-> Hx]]%list_elem_of_fmap.
        destruct (decide (src_id x = src_id s)); [|by apply Hids].
        simpl. by apply Hids. }
    destruct (IH w1 Hwf1) as (w' & Hloop & Hdb & Hvers); [|done|done|].
    { intros x Hx. rewrite Hdb1. apply list_elem_of_fmap. exists x.
      split; [|by apply Hstored, list_elem_of_further].
      rewrite decide_False; [done|]. intros Heq. apply Hsl.
      rewrite <- Heq. by apply list_elem_of_fmap_2. }
    exists w'. simpl. rewrite Hrun. split_and!; [done| |congruence].
    rewrite Hdb, Hdb1, <- list_fmap_compose.
    apply list_fmap_ext. intros k r Hr. simpl.
    apply list_elem_of_lookup_2 in Hr.
    destruct (decide (src_id r = src_id s)) as [Heq|Hneq].
    + rewrite (sources_wf_inj _ r s Hwnd Hr Hs Heq). simpl.
      rewrite decide_False by done.
      rewrite decide_True by apply list_elem_of_here. done.
    + destruct (decide (src_id r ∈ src_id <$> l)) as [Hin|Hnin].
      * rewrite decide_True by (by apply list_elem_of_further). done.
      * rewrite decide_False; [done|].
        intros [?|?]%elem_of_cons; done.
Qed.

(** X19.  [propagate_owner_status] makes the sources of the saved user
    follow the user: in a store with distinct keys and with the writes
    going through, every source owned by the user takes the user's
    [is_active], and the other sources and all versions stay as they
    are. *)
Theorem propagate_owner_status_sets_owned_sources (instance : User)
    (w : world) :
  sources_wf (db_sources w) →
  (∀ i, faults w !! i ≠ Some true) →
  ∃ w',
    propagate_owner_status instance w = (Ok (), w')
    ∧ db_sources w'
      = (λ r, if decide (src_owner r = Some (user_id instance))
              then set_src_is_active (user_is_active instance) r else r)
          <$> db_sources w
    ∧ db_versions w' = db_versions w.
Proof.
  intros Hwf Hfaults. pose proof Hwf as [Hnd Hids].
  unfold propagate_owner_status.
  set (owned := filter (λ s, src_owner s = Some (user_id instance))
                  (db_sources w)).
  destruct (for_each_flag (user_is_active instance) owned w Hwf)
    as (w' & Hloop & Hdb & Hvers); [| |done|].
  { intros s Hs. by apply list_elem_of_filter in Hs as [_ Hs]. }
  { by apply NoDup_fmap_filter. }
  exists w'. split_and!; [|rewrite Hdb|done].
  - by destruct (user_is_active instance).
  - apply list_fmap_ext. intros k r Hr. simpl.
    apply list_elem_of_lookup_2 in Hr.
    destruct (decide (src_owner r = Some (user_id instance))) as [Hown|Hown].
    + rewrite decide_True; [done|].
      apply list_elem_of_fmap_2, list_elem_of_filter. done.
    + rewrite decide_False; [done|].
      intros [x [Hx Hin]]%list_elem_of_fmap.
      apply list_elem_of_filter in Hin as [Hxown Hxin].
      by rewrite (sources_wf_inj _ r x Hnd Hr Hxin Hx) in Hown.
Qed.

Lemma sources_wf_world1 : sources_wf (db_sources (world1 [])).
Proof.
  split.
  - simpl. apply NoDup_singleton.
  - intros r Hr. simpl in Hr.
    apply list_elem_of_singleton in Hr as ->. by eexists.
Defined.

Lemma propagate_owner_status_sets_owned_sources_witness :
  ∃ w',
    propagate_owner_status (user1 false) (world1 []) = (Ok (), w')
    ∧ db_sources w'
      = (λ r, if decide (src_owner r = Some (user_id (user1 false)))
              then set_src_is_active (user_is_active (user1 false)) r else r)
          <$> db_sources (world1 [])
    ∧ db_versions w' = db_versions (world1 []).
Proof.
  apply (propagate_owner_status_sets_owned_sources (user1 false) (world1 [])).
  - apply sources_wf_world1.
  - intros i. simpl. by rewrite lookup_nil.
Defined.

Example propagate_owner_status_run :
  src_is_active
    <$> db_sources (snd (propagate_owner_status (user1 false) (world1 [])))
  = [false].
Proof. reflexivity. Qed.

Lemma soft_delete_undelete_round_trip_witness :
  ∃ s1 w1 s2 w2,
    BaseModel.soft_delete source1 (world1 []) = (Ok s1, w1)
    ∧ src_is_active s1 = false
    ∧ s1 ∈ db_sources w1
    ∧ BaseModel.undelete s1 w1 = (Ok s2, w2)
    ∧ src_fields s2 = src_fields source1
    ∧ src_fields <$> db_sources w2 = src_fields <$> db_sources (world1 [])
    ∧ db_versions w2 = db_versions (world1 []).
Proof.
  apply (soft_delete_undelete_round_trip source1 (world1 [])).
  - apply sources_wf_world1.
  - simpl. apply list_elem_of_here.
  - reflexivity.
  - intros i. simpl. by rewrite lookup_nil.
Defined.

Lemma save_version_new_record (obj obj' : SourceVersion) (w w' : world) :
  id obj = None → save_version obj w = (Ok obj', w') →
  ∃ t i, last (db_versions w')
         = Some (stored (set_created_at t (set_id (Some i) obj))).
Proof.
  unfold save_version, next_fault. intros Hid.
  destruct (faults w) as [|[] fs]; rewrite ?Hid; simpl;
    intros; simplify_eq; simpl; eexists _, _; by rewrite last_snoc.
Qed.

Lemma persist_changes_try_last (e e' : error_dict)
    (pr : option SourceVersion) (obj : SourceVersion) (w w' : world) :
  ConceptContainerVersionModel.persist_changes_try e pr obj w
  = (Returned e', w') →
  id obj = None →
  ∃ t i, last (db_versions w')
         = Some (stored (set_created_at t (set_id (Some i) obj))).
Proof.
  unfold ConceptContainerVersionModel.persist_changes_try,
    ConceptContainerVersionModel.persist_changes_finally.
  intros Hrun Hid.
  destruct pr as [p|].
  - destruct (save_version (set_released false p) w) as [[p'|] w1]; [|done].
    destruct (save_version obj w1) as [[obj'|] w2] eqn:Hsave; [|done].
    simplify_eq. by eapply save_version_new_record.
  - destruct (save_version obj w) as [[obj'|] w2] eqn:Hsave; [|done].
    simplify_eq. by eapply save_version_new_record.
Qed.

(** X21.  A new version that [persist_changes] saves without error is
    stored under the versioned object that was passed in, or else reached
    from the version, and under the mnemonic that was passed in, or else
    the one it had; the transient attributes are not stored. *)
Theorem persist_changes_stores_identity (obj : SourceVersion)
    (kw : ConceptContainerVersionModel.kwargs) (w w' : world) (vo : Source) :
  match ConceptContainerVersionModel.kw_versioned_object kw with
  | Given o => o
  | Absent => ConceptContainerVersionModel.versioned_object obj w
  end = Some vo →
  ConceptContainerVersionModel.persist_changes obj kw w = (Returned ∅, w') →
  id obj = None →
  ∃ r, last (db_versions w') = Some r
       ∧ is_Some (id r)
       ∧ versioned_object_id r = src_id vo
       ∧ mnemonic r
         = match ConceptContainerVersionModel.kw_mnemonic kw with
           | Given m => m
           | Absent => mnemonic obj
           end
       ∧ _previous_version_mnemonic r = None
       ∧ _parent_version_mnemonic r = None
       ∧ _was_released r = None.
Proof.
  unfold ConceptContainerVersionModel.persist_changes.
  intros Hvo Hrun Hid. rewrite Hvo in Hrun.
  destruct (bool_decide _ && bool_decide _); [by simplify_eq|].
  destruct (ConceptContainerVersionModel.resolve_previous_version _ _ _ _)
    as [e1 obj1] eqn:Hprev.
  destruct (ConceptContainerVersionModel.resolve_parent_version _ _ _ _)
    as [e2 obj2] eqn:Hpar.
  pose proof (resolve_previous_version_keeps _ _ _ _ _ _ Hprev)
    as (Hid1 & _ & _ & Hm1).
  pose proof (resolve_parent_version_keeps _ _ _ _ _ _ Hpar)
    as (Hid2 & _ & _ & Hm2).
  apply resolve_previous_version_flags in Hprev as (_ & _ & Hv1 & _).
  apply resolve_parent_version_flags in Hpar as (_ & _ & Hv2).
  simpl in *.
  destruct (decide (e2 ≠ ∅)); [by simplify_eq|].
  assert (∃ obj3 pr,
            ConceptContainerVersionModel.persist_changes_try e2 pr
              (del_was_released obj3) w = (Returned ∅, w')
            ∧ obj3 = set_concepts (concepts obj3) obj2)
    as (obj3 & pr & Htry & Hobj3).
  { destruct (if ConceptContainerVersionModel.kw_seed_concepts kw
              then SourceVersion.seed_concepts (db_versions w) obj2
              else Ok obj2) as [obj3|] eqn:Hseeded; [|done].
    assert (obj3 = set_concepts (concepts obj3) obj2) as Hobj3.
    { destruct (ConceptContainerVersionModel.kw_seed_concepts kw).
      - by apply seed_concepts_spec in Hseeded as [? _].
      - injection Hseeded as ->. by destruct obj3. }
    repeat case_match; simplify_eq; eauto. }
  apply persist_changes_try_last in Htry as (t & i & Hlast);
    [|rewrite Hobj3; simpl; congruence].
  eexists. split; [exact Hlast|]. rewrite Hobj3. simpl.
  split_and!; [by eexists|congruence|congruence|done..].
Qed.

Lemma persist_changes_stores_identity_witness :
  ∃ r, last
         (db_versions
            (snd (ConceptContainerVersionModel.persist_changes draft_v2
                    seeding_kwargs (world1 [])))) = Some r
       ∧ is_Some (id r)
       ∧ versioned_object_id r = src_id source1
       ∧ mnemonic r
         = match ConceptContainerVersionModel.kw_mnemonic seeding_kwargs with
           | Given m => m
           | Absent => mnemonic draft_v2
           end
       ∧ _previous_version_mnemonic r = None
       ∧ _parent_version_mnemonic r = None
       ∧ _was_released r = None.
Proof.
  apply (persist_changes_stores_identity draft_v2 seeding_kwargs (world1 [])).
  - reflexivity.
  - vm_compute. reflexivity.
  - reflexivity.
Defined.


(** ** Failing writes *)

Lemma save_version_fault (obj : SourceVersion) (w : world) :
  faults w !! 0 = Some true →
  ∃ w1, save_version obj w = (Exn, w1)
        ∧ db_versions w1 = db_versions w
        ∧ db_sources w1 = db_sources w
        ∧ faults w1 = tail (faults w).
Proof.
  unfold save_version, next_fault. intros Hfault.
  destruct (faults w) as [|[] fs] eqn:Hf; simpl in *; [done| |done].
  eexists. split; [reflexivity|]. simpl. by rewrite ?Hf.
Qed.

Lemma save_version_faults (obj obj1 : SourceVersion) (w w1 : world) :
  save_version obj w = (Ok obj1, w1) → faults w1 = tail (faults w).
Proof.
  unfold save_version, next_fault.
  destruct (faults w) as [|[] fs] eqn:Hf; simpl; [|done|].
  all: destruct (id obj); [case_bool_decide|]; intros; simplify_eq; simpl;
    by rewrite ?Hf.
Qed.

Lemma persist_changes_try_first_fault (e : error_dict)
    (pr : option SourceVersion) (obj : SourceVersion) (w : world) :
  faults w !! 0 = Some true →
  fst (ConceptContainerVersionModel.persist_changes_try e pr obj w) = Raised.
Proof.
  intros Hfault.
  unfold ConceptContainerVersionModel.persist_changes_try,
    ConceptContainerVersionModel.persist_changes_finally.
  destruct pr as [p|].
  - destruct (save_version_fault (set_released false p) w Hfault)
      as (w1 & -> & _). done.
  - destruct (save_version_fault obj w Hfault) as (w1 & -> & _). done.
Qed.

Lemma persist_changes_try_second_fault (e : error_dict)
    (p obj : SourceVersion) (w : world) :
  faults w !! 1 = Some true →
  fst (ConceptContainerVersionModel.persist_changes_try e (Some p) obj w)
  = Raised.
Proof.
  intros Hfault.
  unfold ConceptContainerVersionModel.persist_changes_try,
    ConceptContainerVersionModel.persist_changes_finally.
  destruct (save_version (set_released false p) w) as [[p'|] w1] eqn:Hs1;
    [|done].
  apply save_version_faults in Hs1.
  destruct (save_version_fault obj w1) as (w2 & -> & _); [|done].
  by rewrite Hs1, lookup_tail.
Qed.

Lemma persist_changes_returned_entry_same_world (obj : SourceVersion)
    (kw : ConceptContainerVersionModel.kwargs) (w w' : world)
    (e : error_dict) :
  ConceptContainerVersionModel.persist_changes obj kw w = (Returned e, w') →
  e ≠ ∅ → w' = w.
Proof.
  unfold ConceptContainerVersionModel.persist_changes.
  destruct (match ConceptContainerVersionModel.kw_versioned_object kw with
            | Given o => o
            | Absent => ConceptContainerVersionModel.versioned_object obj w
            end) as [vo|]; [|by intros [= _ ->]].
  destruct (bool_decide _ && bool_decide _); [by intros [=]|].
  destruct (ConceptContainerVersionModel.resolve_previous_version _ _ _ _)
    as [e1 obj1].
  destruct (ConceptContainerVersionModel.resolve_parent_version _ _ _ _)
    as [e2 obj2].
  destruct (decide (e2 ≠ ∅)) as [|Hok]; [by intros [= _ ->]|].
  intros Hrun Hne. exfalso. apply Hok. intros He2. apply Hne.
  repeat case_match; simplify_eq.
  all: match goal with
       | H : ConceptContainerVersionModel.persist_changes_try _ _ _ _ = _ |- _ =>
           by apply persist_changes_try_returns in H
       end.
Qed.

(** A call that returns the empty dictionary went through the [try]
    block, with a prior release when the version is being released. *)
Lemma persist_changes_success_try (obj : SourceVersion)
    (kw : ConceptContainerVersionModel.kwargs) (w w' : world) :
  ConceptContainerVersionModel.persist_changes obj kw w = (Returned ∅, w') →
  ∃ e pr obj3,
    ConceptContainerVersionModel.persist_changes_try e pr obj3 w
    = (Returned ∅, w')
    ∧ (released obj = true → _was_released obj = Some false → is_Some pr).
Proof.
  unfold ConceptContainerVersionModel.persist_changes.
  destruct (match ConceptContainerVersionModel.kw_versioned_object kw with
            | Given o => o
            | Absent => _
            end) as [vo|].
  2:{ intros Hrun.
      apply (f_equal (λ x, match fst x with
                           | Returned e => e
                           | Raised => ∅
                           end)) in Hrun.
      simpl in Hrun. by apply insert_non_empty in Hrun. }
  destruct (bool_decide _ && bool_decide _); [done|].
  destruct (ConceptContainerVersionModel.resolve_previous_version _ _ _ _)
    as [e1 obj1] eqn:Hprev.
  destruct (ConceptContainerVersionModel.resolve_parent_version _ _ _ _)
    as [e2 obj2] eqn:Hpar.
  apply resolve_previous_version_flags in Hprev as (Hr1 & Hw1 & _).
  apply resolve_parent_version_flags in Hpar as (Hr2 & Hw2 & _).
  simpl in *.
  destruct (decide (e2 ≠ ∅)) as [Hne|]; [intros [= He]; by destruct Hne|].
  destruct (if ConceptContainerVersionModel.kw_seed_concepts kw
            then SourceVersion.seed_concepts (db_versions w) obj2
            else Ok obj2) as [obj3|] eqn:Hseeded; [|done].
  assert (obj3 = set_concepts (concepts obj3) obj2) as Hobj3.
  { destruct (ConceptContainerVersionModel.kw_seed_concepts kw).
    - by apply seed_concepts_spec in Hseeded as [? _].
    - injection Hseeded as ->. by destruct obj3. }
  assert (_was_released obj3 = _was_released obj
          ∧ released obj3 = released obj) as [Hw3 Hr3].
  { rewrite Hobj3. simpl. split; congruence. }
  rewrite Hw3, Hr3.
  destruct (_was_released obj) as [was|].
  - destruct (released obj && negb was) eqn:Htoggle.
    + destruct (ConceptContainerVersionModel.get_released w
                  (versioned_object_id obj3)) as [p|]; [|done].
      intros Htry. eexists _, (Some p), _. split; [exact Htry|]. eauto.
    + intros Htry. eexists _, None, _. split; [exact Htry|].
      intros Hrel [= ->]. rewrite Hrel in Htoggle. done.
  - intros Htry. eexists _, None, _. split; [exact Htry|]. done.
Qed.

(** X11.  A failing save never shows in what [persist_changes] returns.
    When the first write of the call fails, or the second one while a
    version is being released, the call ends in an exception, unless the
    checks before had already returned a dictionary with an entry, nothing
    being written.  And with a versioned object at hand no returned
    dictionary has the key [non_field_errors]. *)
Theorem persist_changes_failing_save_raises (obj : SourceVersion)
    (kw : ConceptContainerVersionModel.kwargs) (w w' : world)
    (out : outcome) :
  ConceptContainerVersionModel.persist_changes obj kw w = (out, w') →
  (faults w !! 0 = Some true →
   out = Raised ∨ ∃ e, out = Returned e ∧ e ≠ ∅ ∧ w' = w)
  ∧ (faults w !! 1 = Some true →
     released obj = true → _was_released obj = Some false →
     out = Raised ∨ ∃ e, out = Returned e ∧ e ≠ ∅ ∧ w' = w)
  ∧ (is_Some
       (match ConceptContainerVersionModel.kw_versioned_object kw with
        | Given o => o
        | Absent => ConceptContainerVersionModel.versioned_object obj w
        end) →
     ∀ e, out = Returned e → e !! "non_field_errors" = None).
Proof.
  intros Hrun. split_and!.
  - intros Hfault. destruct out as [e|]; [|by left]. right.
    destruct (decide (e = ∅)) as [->|Hne].
    + exfalso.
      apply persist_changes_success_try in Hrun
        as (e & pr & obj3 & Htry & _).
      apply (f_equal fst) in Htry.
      by rewrite persist_changes_try_first_fault in Htry.
    + exists e. split_and!; [done|done|].
      by eapply persist_changes_returned_entry_same_world.
  - intros Hfault Hrel Hwas. destruct out as [e|]; [|by left]. right.
    destruct (decide (e = ∅)) as [->|Hne].
    + exfalso.
      apply persist_changes_success_try in Hrun
        as (e & pr & obj3 & Htry & Hpr).
      destruct (Hpr Hrel Hwas) as [p ->].
      apply (f_equal fst) in Htry.
      by rewrite persist_changes_try_second_fault in Htry.
    + exists e. split_and!; [done|done|].
      by eapply persist_changes_returned_entry_same_world.
  - intros Hvo e ->.
    by eapply persist_changes_never_reports_save_failure.
Qed.

Lemma persist_changes_failing_save_raises_witness :
  fst (ConceptContainerVersionModel.persist_changes release_v2 no_kwargs
         (world2 [false; true])) = Raised
  ∨ ∃ e, fst (ConceptContainerVersionModel.persist_changes release_v2
                no_kwargs (world2 [false; true])) = Returned e
         ∧ e ≠ ∅
         ∧ snd (ConceptContainerVersionModel.persist_changes release_v2
                  no_kwargs (world2 [false; true])) = world2 [false; true].
Proof.
  apply (proj1 (proj2 (persist_changes_failing_save_raises release_v2
                         no_kwargs (world2 [false; true]) _ _
                         (surjective_pairing _)))).
  - reflexivity.
  - reflexivity.
  - reflexivity.
Defined.

Example persist_changes_failing_save_run :
  fst (ConceptContainerVersionModel.persist_changes draft_v2_plain no_kwargs
         (world1 [true])) = Raised
  ∧ fst (ConceptContainerVersionModel.persist_changes release_v2 no_kwargs
           (world2 [false; true])) = Raised.
Proof. split; vm_compute; reflexivity. Qed.

Lemma save_version_Exn_world (obj : SourceVersion) (w w1 : world) :
  save_version obj w = (Exn, w1) →
  db_versions w1 = db_versions w ∧ db_sources w1 = db_sources w.
Proof.
  unfold save_version, next_fault.
  destruct (faults w) as [|[] fs]; simpl;
    try (destruct (id obj); [case_bool_decide|]); intros; by simplify_eq.
Qed.

Lemma persist_new_finally_raises (errors : error_dict)
    (version : option SourceVersion) (obj : Source) (w : world) :
  ConceptContainerModel.persist_new_finally errors version obj w
  = (Raised, w).
Proof. reflexivity. Qed.

(** X4.  [persist_new] rolls nothing back.  When [obj.save()] has gone
    through and the call ends in an exception, the saved source is still in
    the store, and so is its initial version, named [INITIAL], if the first
    [version.save()] went through: the [finally] block raises at its first
    statement, before the deletes. *)
Theorem persist_new_failure_leaves_source
    (full_clean : list Source → Source → error_dict)
    (obj : Source) (kw : ConceptContainerModel.kwargs) (w w' : world) :
  is_Some (ConceptContainerModel.parent_resource kw) →
  is_Some (ConceptContainerModel.owner kw) →
  full_clean (db_sources w)
    (set_src_owner (ConceptContainerModel.owner kw)
       (set_src_parent (ConceptContainerModel.parent_resource kw) obj)) = ∅ →
  faults w !! 0 ≠ Some true →
  ConceptContainerModel.persist_new full_clean obj kw w = (Raised, w') →
  ∃ saved,
    saved ∈ db_sources w'
    ∧ is_Some (src_id saved)
    ∧ saved
      = set_src_id (src_id saved)
          (set_src_owner (ConceptContainerModel.owner kw)
             (set_src_parent (ConceptContainerModel.parent_resource kw) obj))
    ∧ (db_versions w' = db_versions w
       ∨ ∃ v, db_versions w' = db_versions w ++ [v]
              ∧ mnemonic v = "INITIAL"
              ∧ released v = true
              ∧ versioned_object_id v = src_id saved).
Proof.
  intros [p Hp] [u Hu] Hclean Hfault.
  unfold ConceptContainerModel.persist_new.
  rewrite Hp, Hu in *.
  rewrite decide_False by (intros Hne; by apply Hne).
  rewrite Hclean.
  rewrite decide_False by (intros Hne; apply Hne; by rewrite (left_id_L ∅ (∪))).
  destruct (save_source_succeeds
              (set_src_owner (Some u) (set_src_parent (Some p) obj)) w Hfault)
    as (obj1 & w1 & Hsrc & _).
  rewrite Hsrc.
  destruct (save_source_ok _ _ _ _ Hsrc) as (Hin & Hvers & Hsome & Hobj1).
  rewrite !persist_new_finally_raises.
  destruct (SourceVersion.for_base_object obj1 "INITIAL" None None false)
    as [version|] eqn:Hfor.
  2:{ intros [= <-]. exists obj1. split_and!; [done..|by left]. }
  assert (id version = None ∧ mnemonic version = "INITIAL"
          ∧ versioned_object_id version = src_id obj1) as (Hvid & Hvm & Hvo).
  { revert Hfor. unfold SourceVersion.for_base_object.
    repeat case_match; intros; by simplify_eq. }
  destruct (save_version (set_released true version) w1)
    as [[v1|] w2] eqn:Hs1.
  2:{ intros [= <-]. apply save_version_Exn_world in Hs1 as [Hdb Hsrcs].
      exists obj1. rewrite Hsrcs, Hdb. split_and!; [done..|by left]. }
  assert (id (set_released true version) = None) as Hvid'
    by (simpl; exact Hvid).
  pose proof (save_version_new_record _ _ _ _ Hvid' Hs1) as (t & i & Hlast).
  destruct (save_version_new _ _ _ _ Hvid' Hs1) as (r & _ & Hdb & Hsrcs & _).
  rewrite Hdb, last_snoc in Hlast. injection Hlast as ->.
  destruct (save_version _ w2) as [[v2|] w3] eqn:Hs2; [done|].
  intros [= <-]. apply save_version_Exn_world in Hs2 as [Hdb3 Hsrcs3].
  exists obj1. rewrite Hsrcs3, Hsrcs, Hdb3, Hdb, Hvers.
  split_and!; [done..|]. right. eexists. split; [done|]. simpl. done.
Qed.

Lemma persist_new_failure_leaves_source_witness :
  ∃ saved,
    saved ∈ db_sources
              (snd (ConceptContainerModel.persist_new full_clean_unique
                      source2_draft owner_and_parent
                      (world1 [false; false; true])))
    ∧ is_Some (src_id saved)
    ∧ saved
      = set_src_id (src_id saved)
          (set_src_owner (ConceptContainerModel.owner owner_and_parent)
             (set_src_parent
                (ConceptContainerModel.parent_resource owner_and_parent)
                source2_draft))
    ∧ (db_versions
         (snd (ConceptContainerModel.persist_new full_clean_unique
                 source2_draft owner_and_parent
                 (world1 [false; false; true])))
       = db_versions (world1 [false; false; true])
       ∨ ∃ v, db_versions
                (snd (ConceptContainerModel.persist_new full_clean_unique
                        source2_draft owner_and_parent
                        (world1 [false; false; true])))
              = db_versions (world1 [false; false; true]) ++ [v]
              ∧ mnemonic v = "INITIAL"
              ∧ released v = true
              ∧ versioned_object_id v = src_id saved).
Proof.
  apply (persist_new_failure_leaves_source full_clean_unique source2_draft
           owner_and_parent (world1 [false; false; true])).
  - simpl. eauto.
  - simpl. eauto.
  - vm_compute. reflexivity.
  - simpl. discriminate.
  - vm_compute. reflexivity.
Defined.
